(** * Release tooling: [ddev release testable]

    A shallow embedding of
    [datadog_checks/dev/tooling/commands/release/testable.py]:
    the version reference normaliser [validate_version], the card
    dispatcher [create_trello_card] and the review loop of [testable].

    Python [str] values are modelled as [string], read as sequences of
    code points below 256; character classes ([str.isspace], line
    boundaries, printable characters) are those of Python on that range. *)

From Stdlib Require Import Ascii NArith DecimalString DecimalN DecimalFacts.
From stdpp Require Import gmap strings list sorting.

(** ** Python string methods used by the command *)

Module PyStr.

Definition code (c : ascii) : N := N_of_ascii c.

Definition in_range (lo hi : N) (c : ascii) : bool :=
  (lo <=? code c)%N && (code c <=? hi)%N.

(** [str.isspace] on one character. *)
Definition isspace (c : ascii) : bool :=
  in_range 9 13 c || in_range 28 32 c
  || bool_decide (code c = 133%N) || bool_decide (code c = 160%N).

(** The line boundaries of [str.splitlines]. *)
Definition is_linebreak (c : ascii) : bool :=
  in_range 10 13 c || in_range 28 30 c || bool_decide (code c = 133%N).

Definition isdigit (c : ascii) : bool := in_range 48 57 c.

Definition isalpha (c : ascii) : bool := in_range 65 90 c || in_range 97 122 c.

Fixpoint forallb (p : ascii → bool) (s : string) : bool :=
  match s with
  | "" => true
  | String c s' => p c && forallb p s'
  end.

Fixpoint existsb (p : ascii → bool) (s : string) : bool :=
  match s with
  | "" => false
  | String c s' => p c || existsb p s'
  end.

(** No character of [s] is [sep]. *)
Definition free_of (sep : ascii) (s : string) : bool :=
  forallb (λ c, negb (bool_decide (c = sep))) s.

Arguments free_of sep%_char s.

(** No character of [s] is a line boundary. *)
Definition no_linebreak (s : string) : bool :=
  forallb (λ c, negb (is_linebreak c)) s.

(** [s.startswith(p)] *)
Definition startswith (p s : string) : bool := String.prefix p s.

(** [sep.join(parts)] *)
Definition join (sep : string) (parts : list string) : string :=
  String.concat sep parts.

(** [s.split(sep)] for a one-character separator: never empty. *)
Fixpoint split (sep : ascii) (s : string) : list string :=
  match s with
  | "" => [""]
  | String c s' =>
      if decide (c = sep) then "" :: split sep s'
      else match split sep s' with
           | [] => [String c ""]
           | p :: ps => String c p :: ps
           end
  end.

Arguments split sep%_char s.

(** [s.split(sep, 1)]: cut at the first separator only. *)
Fixpoint split1 (sep : ascii) (s : string) : list string :=
  match s with
  | "" => [""]
  | String c s' =>
      if decide (c = sep) then [""; s']
      else match split1 sep s' with
           | [] => [String c ""]
           | p :: ps => String c p :: ps
           end
  end.

Arguments split1 sep%_char s.

(** Drop the leading characters that satisfy [p]. *)
Fixpoint lstrip_by (p : ascii → bool) (s : string) : string :=
  match s with
  | "" => ""
  | String c s' => if p c then lstrip_by p s' else s
  end.

(** Drop the trailing characters that satisfy [p]. *)
Fixpoint rstrip_by (p : ascii → bool) (s : string) : string :=
  match s with
  | "" => ""
  | String c s' =>
      match rstrip_by p s' with
      | "" => if p c then "" else String c ""
      | r => String c r
      end
  end.

(** [s.strip()] *)
Definition strip (s : string) : string := rstrip_by isspace (lstrip_by isspace s).

(** [s.strip(chars)] for a one-character [chars]. *)
Definition strip_char (ch : ascii) (s : string) : string :=
  let p c := bool_decide (c = ch) in rstrip_by p (lstrip_by p s).

Arguments strip_char ch%_char s.

(** The longest prefix whose characters satisfy [p], and the rest. *)
Fixpoint span (p : ascii → bool) (s : string) : string * string :=
  match s with
  | "" => ("", "")
  | String c s' =>
      if p c then let '(a, b) := span p s' in (String c a, b) else ("", s)
  end.

(** [s.split(None, 1)]: the first run of non-blank characters, then,
    after the blanks that follow it, the rest of the string as it is. *)
Definition split_ws1 (s : string) : list string :=
  match lstrip_by isspace s with
  | "" => []
  | t =>
      let '(word, rest) := span (λ c, negb (isspace c)) t in
      match lstrip_by isspace rest with
      | "" => [word]
      | tail => [word; tail]
      end
  end.

(** [s.splitlines()]: a carriage return followed by a line feed is one
    boundary; no empty last line is produced. *)
Fixpoint splitlines (s : string) : list string :=
  match s with
  | "" => []
  | String c s' =>
      if is_linebreak c then
        "" :: match s' with
              | "" => []
              | String c' s'' =>
                  if bool_decide (c = "013"%char) && bool_decide (c' = "010"%char)
                  then splitlines s''
                  else splitlines s'
              end
      else match splitlines s' with
           | [] => [String c ""]
           | l :: ls => String c l :: ls
           end
  end.

(** [str(n)] and [int(s)] on decimal numerals. *)
Definition str_of_N (n : N) : string := NilEmpty.string_of_uint (N.to_uint n).

Definition N_of_digits (s : string) : option N :=
  N.of_uint <$> NilEmpty.uint_of_string s.

Definition str_of_nat (n : nat) : string := str_of_N (N.of_nat n).

(** [' ' * n] *)
Fixpoint spaces (n : nat) : string :=
  match n with
  | 0 => ""
  | S n' => String " " (spaces n')
  end.

Definition hex_digit (n : N) : ascii :=
  if (n <? 10)%N then ascii_of_N (48 + n) else ascii_of_N (87 + n).

(** [repr(s)]: single quotes unless the string has a single quote and no
    double quote; backslash escapes for the quote, the backslash, tab,
    line feed, carriage return and the characters that are not printable. *)
Definition repr_quote (s : string) : ascii :=
  if existsb (λ c, bool_decide (c = "'"%char)) s
     && negb (existsb (λ c, bool_decide (c = "034"%char)) s)
  then "034"%char else "'"%char.

Definition printable (c : ascii) : bool :=
  in_range 32 126 c || (in_range 161 255 c && negb (bool_decide (code c = 173%N))).

Definition repr_char (quote c : ascii) : string :=
  if bool_decide (c = quote) || bool_decide (c = "092"%char) then String "092" (String c "")
  else if bool_decide (code c = 9%N) then String "092" "t"
  else if bool_decide (code c = 10%N) then String "092" "n"
  else if bool_decide (code c = 13%N) then String "092" "r"
  else if printable c then String c ""
  else String "092" (String "x" (String (hex_digit (code c / 16))
                                 (String (hex_digit (code c mod 16)) ""))).

Fixpoint repr_body (quote : ascii) (s : string) : string :=
  match s with
  | "" => ""
  | String c s' => repr_char quote c +:+ repr_body quote s'
  end.

Definition repr (s : string) : string :=
  let q := repr_quote s in
  String q (repr_body q s +:+ String q "").

End PyStr.

(** ** Version reference normaliser *)

Module Version.
Import PyStr.

(** [semver.VersionInfo] *)
Record VersionInfo := mkVersionInfo {
  major : N;
  minor : N;
  patch : N;
  prerelease : option string;
  build : option string
}.

(** A numeric identifier: [0], or digits that do not start with [0]. *)
Definition numeric (s : string) : bool :=
  match s with
  | "" => false
  | String c s' =>
      isdigit c && forallb isdigit s'
      && (negb (bool_decide (c = "0"%char)) || bool_decide (s' = ""))
  end.

Definition ident_char (c : ascii) : bool :=
  isdigit c || isalpha c || bool_decide (c = "-"%char).

(** One dot-separated identifier of a prerelease. *)
Definition prerelease_ident (s : string) : bool :=
  bool_decide (s ≠ "") && forallb ident_char s
  && (negb (forallb isdigit s) || numeric s).

(** One dot-separated identifier of build metadata. *)
Definition build_ident (s : string) : bool :=
  bool_decide (s ≠ "") && forallb ident_char s.

Definition idents (ok : string → bool) (s : string) : bool :=
  List.forallb ok (split "." s).

(** What follows the patch number: an optional [-prerelease], then an
    optional [+build]. *)
Definition parse_tail (s : string) : option (option string * option string) :=
  match s with
  | "" => Some (None, None)
  | String c t =>
      if bool_decide (c = "-"%char) then
        let '(pre, rest) := span (λ c, negb (bool_decide (c = "+"%char))) t in
        if idents prerelease_ident pre then
          match rest with
          | "" => Some (Some pre, None)
          | String _ b =>
              if idents build_ident b then Some (Some pre, Some b) else None
          end
        else None
      else if bool_decide (c = "+"%char) then
        if idents build_ident t then Some (None, Some t) else None
      else None
  end.

(** Modelled from the spec: [semver.parse_version_info] is a library
    call, not under [src/]; the spec has it parse "the full string as
    strict semver ([major.minor.patch[-prerelease]])".  The grammar is
    that of semantic versioning: three numeric identifiers, then the
    optional prerelease and build parts.  [None] is the [ValueError]. *)
Definition parse_version_info (version : string) : option VersionInfo :=
  let '(ma, r1) := span isdigit version in
  match r1 with
  | String "." r1' =>
      let '(mi, r2) := span isdigit r1' in
      match r2 with
      | String "." r2' =>
          let '(pa, r3) := span isdigit r2' in
          if numeric ma && numeric mi && numeric pa then
            match N_of_digits ma, N_of_digits mi, N_of_digits pa, parse_tail r3 with
            | Some a, Some b, Some c, Some (pre, bld) =>
                Some (mkVersionInfo a b c pre bld)
            | _, _, _, _ => None
            end
          else None
      | _ => None
      end
  | _ => None
  end.

(** Modelled from the spec: [str(version_info)], "the canonical
    re-serialized semver string". *)
Definition str_version (v : VersionInfo) : string :=
  str_of_N (major v) +:+ "." +:+ str_of_N (minor v) +:+ "." +:+ str_of_N (patch v)
  +:+ match prerelease v with Some p => String "-" p | None => "" end
  +:+ match build v with Some b => String "+" b | None => "" end.

(** The text after the patch number for the given prerelease and
    build parts. *)
Definition tail_string (pre bld : option string) : string :=
  match pre with Some p => String "-" p | None => "" end
  +:+ match bld with Some b => String "+" b | None => "" end.

(** The outcome of a click callback: the value, or [click.BadParameter]. *)
Inductive result :=
| Ok (value : string)
| BadParameter (message : string).

Definition semver_format_message : string :=
  "needs to be in semver format M.m[.p[-r]]".

Definition ambiguous_message (value : string) : string :=
  let example_release_tag := value +:+ ".1" in
  let example_release_branch := value +:+ ".x" in
  "Using a minor version (" +:+ repr value +:+ ") is ambiguous. Use a release tag (e.g. "
  +:+ repr example_release_tag +:+ ") "
  +:+ "or a release branch (e.g. " +:+ repr example_release_branch +:+ ") instead.".

(** The inner [parse_version]: a [ValueError] becomes a [BadParameter]. *)
Definition parse_version (version : string) : string + VersionInfo :=
  match parse_version_info version with
  | Some v => inr v
  | None => inl semver_format_message
  end.

(** [validate_version(ctx, param, value, ignore)]; [ctx] and [param] are
    not read. *)
Definition validate_version (value : string) (ignore : list string) : result :=
  if bool_decide (value ∈ ignore) then Ok value
  else
    let parts := split "." value in
    if bool_decide (length parts = 2) then BadParameter (ambiguous_message value)
    else if bool_decide (length parts = 3) && bool_decide (last parts = Some "x") then
      let parts := <[2 := "0"]> parts in
      match parse_version (join "." parts) with
      | inl message => BadParameter message
      | inr version_info =>
          Ok (str_of_N (major version_info) +:+ "." +:+ str_of_N (minor version_info) +:+ ".x")
      end
    else
      match parse_version (join "." parts) with
      | inl message => BadParameter message
      | inr version_info => Ok (str_version version_info)
      end.

End Version.

(** ** The release command *)

Module Release.
Import PyStr.

Definition newline : string := String "010" "".
Definition NUL : string := String "000" "".

(** *** Console output, waits and remote calls, in the order they happen *)

Inductive Level := Info | Success | Warning | Failure | Waiting.

Inductive Event :=
| Echo (level : Level) (text : string) (nl : bool) (indent : string)
| Sleep (seconds : N)
| GetPr (commit_id : string)
| GetPrFromHash (commit_hash repo : string)
| CreateCard (team name body : string).

Definition echo_info (text : string) : Event := Echo Info text true "".
Definition echo_success (text : string) : Event := Echo Success text true "".
Definition echo_warning (text : string) : Event := Echo Warning text true "".
Definition echo_failure (text : string) : Event := Echo Failure text true "".
Definition echo_waiting (text : string) : Event := Echo Waiting text true "".

(** *** Payloads *)

(** A JSON field that holds a string or [null]. *)
Inductive json_str :=
| JNull
| JStr (s : string).

(** [f'{v}'] *)
Definition format_json_str (v : json_str) : string :=
  match v with
  | JNull => "None"
  | JStr s => s
  end.

(** The pull request object of the GitHub API, as far as the command
    reads it; [None] is an absent key.  [number] holds [str(number)]. *)
Record PrData := mkPrData {
  number : option string;
  html_url : option string;
  title : option string;
  user_login : option string;
  body : option json_str;
  labels : list string;
  milestone_title : option string
}.

(** [{}] *)
Definition empty_pr : PrData := mkPrData None None None None None [] None.

Record Response (A : Type) := mkResponse {
  status_code : N;
  json : A
}.
Arguments mkResponse {A} _ _.
Arguments status_code {A} _.
Arguments json {A} _.

(** [raise_for_status()] raises on the 4xx and 5xx codes. *)
Definition http_error {A} (r : Response A) : bool :=
  (400 <=? status_code r)%N && (status_code r <? 600)%N.

(** The search result of [get_pr_from_hash]: its [items] key, if any. *)
Record SearchData := mkSearchData {
  items : option (list PrData)
}.

(** What [TrelloClient.create_card] returns. *)
Record CardResult := mkCardResult {
  rate_limited : bool;
  error : option string;
  card_url : string
}.

(** Truth value of a [str] or [None]. *)
Definition truthy (v : option string) : option string :=
  match v with
  | Some s => if bool_decide (s = "") then None else Some s
  | None => None
  end.

(** *** How one iteration of the review loop ends *)

Inductive Exn := HTTPError | IndexError | ValueError | AttributeError | StopIteration.

Inductive Exit :=
| XForbidden                                         (* 403: continue *)
| XNotFound                                          (* 404: continue *)
| XDuplicate (commit_id : string)                    (* already seen: continue *)
| XDocumentation (commit_id : string)                (* documentation only: continue *)
| XMilestone (commit_id : string)                    (* other milestone: continue *)
| XAutoRouted (commit_id : string) (teams : list string)  (* cards by label: continue *)
| XSkipped (commit_id : string)                      (* "Skip" chosen: break *)
| XCard (commit_id : string) (team : string)         (* a team chosen: finished *)
| XQuit (commit_id : string)                         (* "Quit" chosen: return *)
| XBlocked (commit_id : string)                      (* getchar waits, no key left *)
| XAbort (text : string)                             (* abort(): SystemExit *)
| XRaise (exn : Exn) (commit_id : option string).    (* uncaught exception *)

(** The loop goes on to the next change. *)
Definition continues (x : Exit) : bool :=
  match x with
  | XForbidden | XNotFound | XDuplicate _ | XDocumentation _ | XMilestone _
  | XAutoRouted _ _ | XSkipped _ | XCard _ _ => true
  | XQuit _ | XBlocked _ | XAbort _ | XRaise _ _ => false
  end.

(** The commit id that got past the duplicate check in this iteration. *)
Definition processed (x : Exit) : option string :=
  match x with
  | XDocumentation c | XMilestone c | XAutoRouted c _ | XSkipped c | XCard c _
  | XQuit c | XBlocked c => Some c
  | XRaise _ c => c
  | XForbidden | XNotFound | XDuplicate _ | XAbort _ => None
  end.

(** How the command ends. *)
Inductive Status :=
| Completed
| Stopped (x : Exit).

(** *** The option menus *)

Definition options_integrations_core : list (string * string) :=
  [("1", "Integrations"); ("2", "Containers"); ("3", "Core"); ("4", "Platform");
   ("s", "Skip"); ("q", "Quit")].

Definition options_datadog_agent : list (string * string) :=
  [("1", "Core"); ("2", "Containers"); ("3", "Logs"); ("4", "Platform");
   ("5", "Process"); ("6", "Trace"); ("7", "Integrations");
   ("s", "Skip"); ("q", "Quit")].

Definition options_of (repo : string) : list (string * string) :=
  if bool_decide (repo = "integrations-core") then options_integrations_core
  else options_datadog_agent.

(** [options[key]] on the ordered dict; [None] when the key is absent. *)
Fixpoint lookup_option (key : string) (options : list (string * string)) : option string :=
  match options with
  | [] => None
  | (k, v) :: rest => if bool_decide (k = key) then Some v else lookup_option key rest
  end.

(** Modelled from the spec: [utils.get_next] is not under [src/]; "the
    first key is the default when the user presses only Enter".  [None]
    on an empty menu. *)
Definition get_next (options : list (string * string)) : option string :=
  fst <$> head options.

Definition options_text (options : list (string * string)) : string :=
  newline +:+ join newline ((λ kv, fst kv +:+ " - " +:+ snd kv) <$> options).

(** *** Changelog labels *)

(** Modelled from the spec: [constants.CHANGELOG_LABEL_PREFIX] and
    [constants.CHANGELOG_TYPE_NONE] are not under [src/]; the spec's
    labels are [changelog/no-changelog] and [changelog/Fixed]. *)
Definition CHANGELOG_LABEL_PREFIX : string := "changelog/".
Definition CHANGELOG_TYPE_NONE : string := "no-changelog".

(** The scan of the labels: [(documentation_pr, nochangelog_pr)], or
    [None] when [label.split('/', 1)[1]] is out of range. *)
Fixpoint label_flags (pr_labels : list string) (documentation_pr nochangelog_pr : bool)
  : option (bool * bool) :=
  match pr_labels with
  | [] => Some (documentation_pr, nochangelog_pr)
  | label :: rest =>
      let documentation_pr :=
        if startswith "documentation" label then true else documentation_pr in
      if startswith CHANGELOG_LABEL_PREFIX label then
        match split1 "/" label !! 1 with
        | None => None
        | Some changelog_type =>
            if bool_decide (changelog_type ≠ CHANGELOG_TYPE_NONE)
            then label_flags rest documentation_pr false
            else label_flags rest documentation_pr nochangelog_pr
        end
      else label_flags rest documentation_pr nochangelog_pr
  end.

(** [sorted(labels)] *)
Definition sorted (l : list string) : list string := merge_sort String.le l.

(** [tuple(line.split(None, 1)) for line in reversed(stdout.splitlines())] *)
Definition diff_data (stdout : string) : list (list string) :=
  split_ws1 <$> reverse (splitlines stdout).

(** *** The collaborators

    The GitHub and Trello clients answer from a state of the outside
    world that each call may change.  The keys typed by the operator are
    the list [keys]: [click.getchar()] takes the next one and waits when
    there is none. *)

Class Collaborators := {
  World : Type;
  (** [github.get_pr(commit_id, user_config, raw=True)] *)
  get_pr : string → World → Response PrData * World;
  (** [github.get_pr_from_hash(commit_hash, repo, user_config, raw=True)] *)
  get_pr_from_hash : string → string → World → Response SearchData * World;
  (** [client.create_card(team, name, body)] *)
  create_card : string → string → string → World → CardResult * World;
  (** [github.parse_pr_number(commit_subject)] *)
  parse_pr_number : string → option string;
  (** [github.get_pr_labels(pr_data)], [github.get_pr_milestone(pr_data)] *)
  get_pr_labels : PrData → list string;
  get_pr_milestone : PrData → string;
  (** [utils.format_commit_id(commit_id)] *)
  format_commit_id : string → string;
  (** [trello.label_team_map] *)
  label_team_map : gmap string string
}.

Section Command.

Context `{Collaborators}.

Record State := mkState {
  world : World;
  commit_ids : gset string;
  out : list Event
}.

Definition emit (e : Event) (st : State) : State :=
  mkState (world st) (commit_ids st) (out st ++ [e]).

Definition set_world (w : World) (st : State) : State :=
  mkState w (commit_ids st) (out st).

Definition add_commit_id (commit_id : string) (st : State) : State :=
  mkState (world st) ({[commit_id]} ∪ commit_ids st) (out st).

(** *** Card dispatcher *)

Definition creation_attempts : nat := 3.

Definition retry_message (what : string) (attempt : nat) (wait_time : N) : string :=
  "Attempt " +:+ str_of_nat (attempt + 1) +:+ " of " +:+ str_of_nat creation_attempts
  +:+ ": " +:+ what +:+ ", retrying in " +:+ str_of_N wait_time +:+ " seconds...".

(** [for attempt in range(3)], for one team. *)
Fixpoint attempts (team pr_title body : string) (range : list nat) (st : State) : State :=
  match range with
  | [] => st
  | attempt :: range =>
      let '(r, w) := create_card team pr_title body (world st) in
      let st := emit (CreateCard team pr_title body) (set_world w st) in
      if rate_limited r then
        let wait_time := 10%N in
        let st := emit (echo_warning (retry_message "A rate limit in effect" attempt wait_time)) st in
        attempts team pr_title body range (emit (Sleep wait_time) st)
      else
        match truthy (error r) with
        | Some err =>
            if bool_decide (attempt + 1 = creation_attempts) then
              emit (echo_failure ("Error: " +:+ err)) st
            else
              let wait_time := 2%N in
              let st := emit (echo_warning (retry_message "An error has occurred" attempt wait_time)) st in
              attempts team pr_title body range (emit (Sleep wait_time) st)
        | None =>
            let st := emit (Echo Success ("Created card for team " +:+ team +:+ ": ") false "") st in
            emit (echo_info (card_url r)) st
        end
  end.

(** [for team in teams] *)
Fixpoint teams_loop (teams : list string) (pr_title body : string) (dry_run : bool)
    (st : State) : State :=
  match teams with
  | [] => st
  | team :: teams =>
      if dry_run then
        let st := emit (Echo Success ("Will create a card for team " +:+ team +:+ ": ") false "") st in
        teams_loop teams pr_title body dry_run (emit (echo_info pr_title) st)
      else
        teams_loop teams pr_title body dry_run (attempts team pr_title body (seq 0 3) st)
  end.

(** [create_trello_card(client, teams, pr_title, pr_url, pr_body, dry_run)] *)
Definition create_trello_card (teams : list string) (pr_title pr_url : string)
    (pr_body : json_str) (dry_run : bool) (st : State) : State :=
  let body := "Pull request: " +:+ pr_url +:+ newline +:+ newline +:+ format_json_str pr_body in
  teams_loop teams pr_title body dry_run st.

(** *** Review loop *)

(** Settings of one run: the repository name, the [--milestone] and
    [--dry-run] options, the menu and its default key. *)
Record Run := mkRun {
  repo : string;
  milestone : option string;
  dry_run : bool;
  options : list (string * string);
  default_option : string;
  num_changes : nat
}.

Definition options_prompt (run : Run) : string :=
  "Choose an option (default "
  +:+ default "" (lookup_option (default_option run) (options run)) +:+ "): ".

Definition access_denied : string :=
  "Access denied. Please ensure your GitHub token has correct permissions.".

Definition rate_limit_message (what : string) : string :=
  "Error getting info for #" +:+ what +:+ ". Please set a GitHub HTTPS token to avoid rate limits.".

(** What the lookup of one change gives: the commit id and the pull
    request, or the way the iteration ends. *)
Inductive Resolution :=
| Resolved (commit_id : string) (pr_data : PrData)
| Unresolved (x : Exit).

(** The lookup: by pull request number when the subject has one,
    otherwise by a search for the commit hash. *)
Definition resolve (run : Run) (commit_hash commit_subject : string) (st : State)
  : Resolution * State :=
  match truthy (parse_pr_number commit_subject) with
  | Some commit_id =>
      let '(api_response, w) := get_pr commit_id (world st) in
      let st := emit (GetPr commit_id) (set_world w st) in
      if bool_decide (status_code api_response = 401%N) then
        (Unresolved (XAbort access_denied), st)
      else if bool_decide (status_code api_response = 403%N) then
        (Unresolved XForbidden, emit (echo_failure (rate_limit_message commit_id)) st)
      else if bool_decide (status_code api_response = 404%N) then
        (Unresolved XNotFound,
         emit (echo_info ("Skipping #" +:+ commit_id +:+ ", not a pull request...")) st)
      else if http_error api_response then (Unresolved (XRaise HTTPError None), st)
      else (Resolved commit_id (json api_response), st)
  | None =>
      let '(api_response, w) := get_pr_from_hash commit_hash (repo run) (world st) in
      let st := emit (GetPrFromHash commit_hash (repo run)) (set_world w st) in
      if bool_decide (status_code api_response = 401%N) then
        (Unresolved (XAbort access_denied), st)
      else if bool_decide (status_code api_response = 403%N) then
        (Unresolved XForbidden, emit (echo_failure (rate_limit_message commit_hash)) st)
      else if http_error api_response then (Unresolved (XRaise HTTPError None), st)
      else
        let pr_data :=
          match items (json api_response) with
          | None => empty_pr
          | Some (pr_data :: _) => pr_data
          | Some [] =>
              (* IndexError: a commit to master *)
              mkPrData (Some commit_hash)
                (Some ("https://github.com/DataDog/" +:+ repo run +:+ "/commit/" +:+ commit_hash))
                None None None [] None
          end in
        (Resolved (default "" (number pr_data)) pr_data, st)
  end.

(** The values shown for one pull request. *)
Record Shown := mkShown {
  commit_id : string;
  pr_labels : list string;
  pr_milestone : string;
  pr_url : string;
  pr_title : string;
  pr_author : string;
  pr_body : json_str;
  progress_status : string
}.

Definition indent (pr : Shown) : string := spaces (String.length (progress_status pr)).

(** One display of the pull request and of the menu.  [false] when
    [pr_body.strip] fails on a [null] body, after the lines before it. *)
Definition display (run : Run) (pr : Shown) (choice_error : string) (st : State)
  : bool * State :=
  let st := emit (echo_success (newline +:+ progress_status pr +:+ pr_title pr)) st in
  let st := emit (Echo Success "Url: " false (indent pr)) st in
  let st := emit (echo_info (pr_url pr)) st in
  let st := emit (Echo Success "Author: " false (indent pr)) st in
  let st := emit (echo_info (pr_author pr)) st in
  let st := emit (Echo Success "Labels: " false (indent pr)) st in
  let st := emit (echo_info (join ", " (pr_labels pr))) st in
  let st :=
    if bool_decide (pr_milestone pr ≠ "") then
      emit (echo_info (pr_milestone pr)) (emit (Echo Success "Milestone: " false (indent pr)) st)
    else st in
  match pr_body pr with
  | JNull => (false, st)
  | JStr pr_body =>
      let st := emit (Echo Info (strip_char "013" pr_body) true (indent pr)) st in
      let st := emit (echo_info (options_text (options run))) st in
      let st := if bool_decide (choice_error ≠ "") then emit (echo_warning choice_error) st else st in
      (true, emit (Echo Waiting (options_prompt run) false "") st)
  end.

Definition invalid_choice (choice : string) : string :=
  "`" +:+ choice +:+ "` is not a valid option.".

(** [while not finished]: [fresh] tells the head of the loop (the pull
    request is displayed) from the inner loop that reads a key again
    after a null byte. *)
Fixpoint prompt_loop (run : Run) (pr : Shown) (fresh : bool) (choice_error : string)
    (keys : list string) (st : State) : Exit * list string * State :=
  let '(shown, st) := if fresh then display run pr choice_error st else (true, st) in
  if negb shown then (XRaise AttributeError (Some (commit_id pr)), keys, st)
  else
    match keys with
    | [] => (XBlocked (commit_id pr), [], st)
    | key :: keys =>
        let choice := strip key in
        if bool_decide (choice = NUL) then prompt_loop run pr false choice_error keys st
        else
          let choice := if bool_decide (choice = "") then default_option run else choice in
          match lookup_option choice (options run) with
          | None =>
              let st := emit (echo_info choice) st in
              prompt_loop run pr true (invalid_choice choice) keys st
          | Some value =>
              let st := emit (echo_info value) st in
              if bool_decide (value = "Skip") then
                (XSkipped (commit_id pr), keys,
                 emit (echo_info ("Skipped " +:+ format_commit_id (commit_id pr))) st)
              else if bool_decide (value = "Quit") then
                (XQuit (commit_id pr), keys,
                 emit (echo_warning ("Exited at " +:+ format_commit_id (commit_id pr))) st)
              else
                (XCard (commit_id pr) value, keys,
                 create_trello_card [value] (pr_title pr) (pr_url pr) (pr_body pr) (dry_run run) st)
          end
    end.

(** The teams of the labels that the Trello client maps. *)
Definition teams_of (pr_labels : list string) : list string :=
  omap (λ label, label_team_map !! label) pr_labels.

(** One pull request past the duplicate check: the label and milestone
    filters, then the cards by label or the prompt. *)
Definition process (run : Run) (i : nat) (commit_subject commit_id : string)
    (pr_data : PrData) (keys : list string) (st : State) : Exit * list string * State :=
  let pr_labels := sorted (get_pr_labels pr_data) in
  match label_flags pr_labels false true with
  | None => (XRaise IndexError (Some commit_id), keys, st)
  | Some (documentation_pr, nochangelog_pr) =>
      if documentation_pr && nochangelog_pr then
        (XDocumentation commit_id, keys,
         emit (echo_info ("Skipping documentation " +:+ format_commit_id commit_id +:+ ".")) st)
      else
        let pr_milestone := get_pr_milestone pr_data in
        if bool_decide (truthy (milestone run) ≠ None)
           && bool_decide (Some pr_milestone ≠ milestone run) then
          (XMilestone commit_id, keys,
           emit (echo_info ("Looking for milestone " +:+ default "" (milestone run)
                            +:+ ", skipping " +:+ format_commit_id commit_id +:+ ".")) st)
        else
            let pr_url :=
              default ("https://github.com/DataDog/" +:+ repo run +:+ "/pull/" +:+ commit_id)
                      (html_url pr_data) in
            let pr_title := default commit_subject (title pr_data) in
            let pr_author := default "" (user_login pr_data) in
            let pr_body := default (JStr "") (body pr_data) in
            let teams := teams_of pr_labels in
            if bool_decide (teams ≠ []) then
              (XAutoRouted commit_id teams, keys,
               create_trello_card teams pr_title pr_url pr_body (dry_run run) st)
            else
              let progress_status :=
                "(" +:+ str_of_nat i +:+ " of " +:+ str_of_nat (num_changes run) +:+ ") " in
              prompt_loop run
                (mkShown commit_id pr_labels pr_milestone pr_url pr_title pr_author pr_body
                         progress_status)
                true "" keys st
  end.

(** The duplicate check in front of [process]. *)
Definition handle (run : Run) (i : nat) (commit_subject commit_id : string)
    (pr_data : PrData) (keys : list string) (st : State) : Exit * list string * State :=
  if bool_decide (commit_id ≠ "") && bool_decide (commit_id ∈ commit_ids st) then
    (XDuplicate commit_id, keys,
     emit (echo_info ("Already seen PR #" +:+ commit_id +:+ ", skipping it.")) st)
  else process run i commit_subject commit_id pr_data keys (add_commit_id commit_id st).

(** The body of the [for] loop over the changes. *)
Definition step (run : Run) (i : nat) (change : list string) (keys : list string)
    (st : State) : Exit * list string * State :=
  match change with
  | [commit_hash; commit_subject] =>
      match resolve run commit_hash commit_subject st with
      | (Unresolved x, st) => (x, keys, st)
      | (Resolved commit_id pr_data, st) =>
          handle run i commit_subject commit_id pr_data keys st
      end
  | _ => (XRaise ValueError None, keys, st)
  end.

(** [for i, (commit_hash, commit_subject) in enumerate(diff_data, 1)]:
    the exits of the iterations made, the keys left and the state. *)
Fixpoint review (run : Run) (i : nat) (changes : list (list string)) (keys : list string)
    (st : State) : list Exit * list string * State :=
  match changes with
  | [] => ([], keys, st)
  | change :: changes =>
      let '(x, keys, st) := step run i change keys st in
      if continues x then
        let '(log, keys, st) := review run (S i) changes keys st in (x :: log, keys, st)
      else ([x], keys, st)
  end.

Definition status_of (log : list Exit) : Status :=
  match last log with
  | Some x => if continues x then Completed else Stopped x
  | None => Completed
  end.

(** [testable], from the output of the [git log] command on: [stdout]
    is the list of commits, [w] the state of the outside world. *)
Definition testable (repo : string) (stdout : string) (milestone : option string)
    (dry_run : bool) (keys : list string) (w : World) : list Exit * list string * State :=
  let st := mkState w ∅ [] in
  if negb (bool_decide (repo ∈ ["integrations-core"; "datadog-agent"])) then
    ([XAbort ("Repo `" +:+ repo +:+ "` is unsupported.")], keys, st)
  else
    let diff_data := diff_data stdout in
    let num_changes := length diff_data in
    let options := options_of repo in
    match get_next options with
    | None => ([XRaise StopIteration None], keys, st)
    | Some default_option =>
        review (mkRun repo milestone dry_run options default_option num_changes)
               1 diff_data keys st
    end.

End Command.

(** *** What is observed of a run *)

#[export] Instance Level_eq_dec : EqDecision Level.
Proof. solve_decision. Defined.

#[export] Instance Event_eq_dec : EqDecision Event.
Proof. solve_decision. Defined.

(** A call that fetches pull request metadata. *)
Definition is_lookup (e : Event) : bool :=
  match e with
  | GetPr _ | GetPrFromHash _ _ => true
  | _ => false
  end.

(** The prompt of the interactive menu. *)
Definition is_prompt (e : Event) : bool :=
  match e with
  | Echo Waiting _ _ _ => true
  | _ => false
  end.

(** A reported failure. *)
Definition is_failure (e : Event) : bool :=
  match e with
  | Echo Failure _ _ _ => true
  | _ => false
  end.

(** How many times the metadata of [commit_id] was fetched by number. *)
Definition fetches (commit_id : string) (trace : list Event) : nat :=
  length (filter (λ e, e = GetPr commit_id) trace).

(** How many metadata lookups were made. *)
Definition lookups (trace : list Event) : nat :=
  length (filter (λ e, is_lookup e = true) trace).

(** How many iterations took [commit_id] past the duplicate check. *)
Definition times_processed (commit_id : string) (log : list Exit) : nat :=
  length (filter (λ x, processed x = Some commit_id) log).

(** The lookup found the pull request: none of the statuses that end
    or skip the iteration. *)
Definition found {A} (r : Response A) : Prop :=
  status_code r ≠ 401%N ∧ status_code r ≠ 403%N ∧ status_code r ≠ 404%N
  ∧ http_error r = false.

(** A "documentation" label. *)
Definition documentation_label (label : string) : Prop :=
  startswith "documentation" label = true.

(** A changelog label of the given changelog type. *)
Definition changelog_label (label type : string) : Prop :=
  label = CHANGELOG_LABEL_PREFIX +:+ type.

(** The label filter does not stop the pull request. *)
Definition passes_label_filter (labels : list string) : Prop :=
  (∀ label, label ∈ labels → ¬ documentation_label label)
  ∨ (∃ label type, label ∈ labels ∧ changelog_label label type ∧ type ≠ CHANGELOG_TYPE_NONE).

(** The milestone filter does not stop the pull request. *)
Definition passes_milestone_filter (wanted : option string) (pr_milestone : string) : Prop :=
  truthy wanted = None ∨ wanted = Some pr_milestone.

(** One line of [git log "--pretty=format:%H %s"]. *)
Definition log_line (commit : string * string) : string :=
  commit.1 +:+ " " +:+ commit.2.

(** A commit as [git log] prints it: a hash without blanks, a subject
    that is not empty, starts with no blank and has no line boundary. *)
Definition well_formed_commit (commit : string * string) : Prop :=
  commit.1 ≠ "" ∧ forallb (λ c, negb (isspace c)) commit.1 = true
  ∧ match commit.2 with
    | "" => False
    | String c _ => isspace c = false
    end
  ∧ no_linebreak commit.2 = true.

(** A printed warning. *)
Definition is_warning (e : Event) : bool :=
  match e with
  | Echo Warning _ _ _ => true
  | _ => false
  end.

(** The iteration got to its metadata lookup: every exit but the one at
    the head of the loop, where the change does not unpack into a hash
    and a subject. *)
Definition looked_up (x : Exit) : bool :=
  match x with
  | XRaise ValueError None => false
  | _ => true
  end.



(** *** Relations between states and kinds of exits, for the proofs *)

(** [grows P st st']: [st'] has the seen set of [st] and its output
    followed by events that satisfy [P]. *)
Definition grows `{Collaborators} (P : Event → Prop) (st st' : State) : Prop :=
  commit_ids st' = commit_ids st
  ∧ ∃ evs, out st' = out st ++ evs ∧ Forall P evs.

Definition no_lookup (e : Event) : Prop := is_lookup e = false.

(** An event of the card dispatcher: a call to the Trello client, a
    wait, or a message that is not the prompt. *)
Definition card_event (e : Event) : Prop :=
  is_lookup e = false ∧ is_prompt e = false.

(** The ways the prompt for the pull request [c] can end. *)
Definition prompt_exit (c : string) (x : Exit) : Prop :=
  x = XRaise AttributeError (Some c) ∨ x = XBlocked c ∨ x = XSkipped c
  ∨ x = XQuit c ∨ ∃ team, x = XCard c team.

(** The exits of [process] for the commit id [c]. *)
Definition process_exit (c : string) (x : Exit) : Prop :=
  x = XRaise IndexError (Some c) ∨ x = XDocumentation c ∨ x = XMilestone c
  ∨ (∃ teams, x = XAutoRouted c teams) ∨ prompt_exit c x.

End Release.

(** ** The pull request number of a commit subject *)

Module Github.
Import PyStr.

(** Modelled from the spec: [github.parse_pr_number] is not under
    [src/]; "the subject line encodes a PR number" the way GitHub
    writes it when it merges a pull request, as [(#1234)], which the
    repository reads with the pattern [\(#(\d+)\)].
    [match_pr_pattern s] is the group of digits when the pattern
    matches at the start of [s]. *)
Definition match_pr_pattern (s : string) : option string :=
  match s with
  | String "(" (String "#" rest) =>
      match span isdigit rest with
      | (String d digits, String ")" _) => Some (String d digits)
      | _ => None
      end
  | _ => None
  end.

(** [re.findall(PR_PATTERN, log_line)], from left to right.  A match
    holds one parenthesis, its first character, so no match starts
    inside another one. *)
Fixpoint findall (log_line : string) : list string :=
  match log_line with
  | "" => []
  | String _ rest =>
      match match_pr_pattern log_line with
      | Some digits => digits :: findall rest
      | None => findall rest
      end
  end.

(** Modelled from the spec: [github.parse_pr_number(log_line)], the
    number of the last [(#N)] of the subject, [None] without one. *)
Definition parse_pr_number (log_line : string) : option string :=
  last (findall log_line).

End Github.

(** ** A scripted outside world, to run the command on concrete inputs *)

Module Script.
Import PyStr Release.

(** The answers the services will give, in order. *)
Record Answers := mkAnswers {
  pr_answers : list (Response PrData);
  search_answers : list (Response SearchData);
  card_answers : list CardResult
}.

(** Without an answer left, the pull request is not found. *)
Definition answer_pr (commit_id : string) (w : Answers) : Response PrData * Answers :=
  match pr_answers w with
  | [] => (mkResponse 404 empty_pr, w)
  | r :: rs => (r, mkAnswers rs (search_answers w) (card_answers w))
  end.

(** Without an answer left, the search finds nothing. *)
Definition answer_search (commit_hash repo : string) (w : Answers)
  : Response SearchData * Answers :=
  match search_answers w with
  | [] => (mkResponse 200 (mkSearchData (Some [])), w)
  | r :: rs => (r, mkAnswers (pr_answers w) rs (card_answers w))
  end.

(** Without an answer left, the card is created. *)
Definition answer_card (team name body : string) (w : Answers) : CardResult * Answers :=
  match card_answers w with
  | [] => (mkCardResult false None "https://trello.com/c/1", w)
  | r :: rs => (r, mkAnswers (pr_answers w) (search_answers w) rs)
  end.

Definition labels_of (pr_data : PrData) : list string := labels pr_data.

Definition milestone_of (pr_data : PrData) : string :=
  default "" (milestone_title pr_data).

Definition commit_id_text (commit_id : string) : string :=
  if bool_decide (commit_id = "") then commit_id
  else if forallb isdigit commit_id then "PR #" +:+ commit_id
  else "commit hash `" +:+ commit_id +:+ "`".

Definition teams_by_label : gmap string string :=
  {[ "team/integrations" := "Integrations";
     "team/containers" := "Containers";
     "team/agent-core" := "Core" ]}.

#[export] Instance scripted : Collaborators := {
  World := Answers;
  get_pr := answer_pr;
  get_pr_from_hash := answer_search;
  create_card := answer_card;
  parse_pr_number := Github.parse_pr_number;
  get_pr_labels := labels_of;
  get_pr_milestone := milestone_of;
  format_commit_id := commit_id_text;
  label_team_map := teams_by_label
}.

(** A found pull request, with a string body. *)
Definition pr (n : string) (labels : list string) : Response PrData :=
  mkResponse 200
    (mkPrData (Some n) (Some ("https://github.com/DataDog/integrations-core/pull/" +:+ n))
       (Some ("Change " +:+ n)) (Some "dev") (Some (JStr "Body")) labels None).

(** A pull request without labels, for the milestone 7.16.0. *)
Definition for_7_16 : PrData :=
  mkPrData (Some "10") None (Some "Change") (Some "dev") (Some (JStr "Body")) [] (Some "7.16.0").

Definition rate_limited_card : CardResult := mkCardResult true None "".
Definition failed_card : CardResult := mkCardResult false (Some "boom") "".

Definition start (w : Answers) : State := mkState w ∅ [].

(** The output of [git log] for two changes that name pull request 10,
    newest first, and the answers to their two lookups. *)
Definition two_fixes : string := "b2 Fixes (#10)" +:+ newline +:+ "a1 Fixes (#10)".

Definition routed_twice : Answers :=
  mkAnswers [pr "10" ["team/containers"]; pr "10" ["team/containers"]] [] [].


End Script.

(** ** The change enumerator: the git commands in front of the review loop *)

Module Diff.
Import PyStr Release.

(** [sub in s] on strings: [sub] occurs in [s]. *)
Fixpoint contains (sub s : string) : bool :=
  startswith sub s
  || match s with
     | "" => false
     | String _ s' => contains sub s'
     end.

(** What [run_command(command, capture=True)] returns. *)
Record CommandResult := mkCommandResult {
  code : Z;
  stdout : string;
  stderr : string
}.

(** The shell answers from a state that each command may change. *)
Class Shell := {
  Host : Type;
  (** [subprocess.run_command(command, capture=True)] *)
  run_command : string → Host → CommandResult * Host
}.

(** What the enumerator does, in order: a command it runs, or a message. *)
Inductive Action :=
| Ran (command : string)
| Said (e : Event).

Definition fetch_command : string := "git fetch --dry".

(** ['git --no-pager log "--pretty=format:%H %s" {}..{}'.format(a, b)] *)
Definition diff_command (a b : string) : string :=
  "git --no-pager log " +:+ String "034" ("--pretty=format:%H %s" +:+ String "034" (" " +:+ a +:+ ".." +:+ b)).

Definition not_in_sync (root : string) : string :=
  "Your repository is not sync with the remote repository. Please run git fetch in "
  +:+ repr root +:+ " folder.".

Definition no_diff (base_ref target_ref : string) : string :=
  "Unable to get the diff. HINT: ensure " +:+ repr base_ref +:+ " and " +:+ repr target_ref
  +:+ " both refer to either an existing tag, or a release branch.".

Definition retry_with_branch (base_ref origin_release_branch : string) : string :=
  "Tag " +:+ repr base_ref +:+ " does not exist, retrying with release branch "
  +:+ repr origin_release_branch +:+ "...".

(** The part of [testable] from the first message to the end of the
    [with chdir(root)] block: the output of the [git log] that worked
    ([inr]), or the text of the [abort] ([inl]); with them what was run
    and said, and the state of the shell. *)
Definition get_diff `{Shell} (root base_ref target_ref : string) (h : Host)
  : (string + string) * list Action * Host :=
  let said :=
    [Said (echo_info ("Ref " +:+ repr base_ref +:+ " will be compared to " +:+ repr target_ref +:+ "."));
     Said (Echo Waiting "Getting diff... " false "")] in
  let '(result, h) := run_command fetch_command h in
  let said := said ++ [Ran fetch_command] in
  if bool_decide (code result ≠ 0%Z) then
    (inl ("Unable to run " +:+ fetch_command +:+ "."), said, h)
  else if contains base_ref (stderr result) || contains target_ref (stderr result) then
    (inl (not_in_sync root), said, h)
  else
    let reftag := "refs/tags/" +:+ base_ref in
    let '(result, h) := run_command (diff_command reftag target_ref) h in
    let said := said ++ [Ran (diff_command reftag target_ref)] in
    if bool_decide (code result ≠ 0%Z) then
      let origin_release_branch := "origin/" +:+ base_ref in
      let said := said ++ [Said (echo_failure "failed!");
                           Said (echo_waiting (retry_with_branch base_ref origin_release_branch))] in
      let '(result, h) := run_command (diff_command origin_release_branch target_ref) h in
      let said := said ++ [Ran (diff_command origin_release_branch target_ref)] in
      if bool_decide (code result ≠ 0%Z) then
        (inl (no_diff base_ref target_ref), said, h)
      else (inr (stdout result), said ++ [Said (echo_success "success!")], h)
    else (inr (stdout result), said ++ [Said (echo_success "success!")], h).

(** The commands among the actions. *)
Definition commands (actions : list Action) : list string :=
  omap (λ a, match a with Ran c => Some c | Said _ => None end) actions.

(** A shell whose commands answer from a list, in order; without an
    answer left a command succeeds with no output. *)
Definition answer_command (command : string) (h : list CommandResult)
  : CommandResult * list CommandResult :=
  match h with
  | [] => (mkCommandResult 0 "" "", [])
  | r :: rs => (r, rs)
  end.

Definition scripted_shell : Shell := {|
  Host := list CommandResult;
  run_command := answer_command
|}.

End Diff.

(** ** Measures of the output *)

Module Measures.
Import PyStr Release.

(** A call to the Trello client. *)
Definition is_call (e : Event) : bool :=
  match e with
  | CreateCard _ _ _ => true
  | _ => false
  end.

Definition is_sleep (e : Event) : bool :=
  match e with
  | Sleep _ => true
  | _ => false
  end.

(** How many calls to the Trello client were made. *)
Definition calls (trace : list Event) : nat :=
  length (filter (λ e, is_call e = true) trace).

(** How many failures were reported. *)
Definition failures (trace : list Event) : nat :=
  length (filter (λ e, is_failure e = true) trace).

(** The seconds spent in [time.sleep]. *)
Fixpoint waited (trace : list Event) : N :=
  match trace with
  | [] => 0
  | Sleep seconds :: rest => seconds + waited rest
  | _ :: rest => waited rest
  end.

(** The two lines of a dry run for one team. *)
Definition dry_lines (pr_title team : string) : list Event :=
  [Echo Success ("Will create a card for team " +:+ team +:+ ": ") false ""; echo_info pr_title].

(** Neither a call to the Trello client nor a wait. *)
Definition quiet (e : Event) : Prop := is_call e = false ∧ is_sleep e = false.

(** [st'] has the output of [st] followed by quiet events. *)
Definition quietly `{Collaborators} (st st' : State) : Prop :=
  ∃ evs, out st' = out st ++ evs ∧ Forall quiet evs.

End Measures.

(** * Properties *)

#[local] Set Warnings "-clear-no-such-hyp".

(** ** Strings *)

Module StrFacts.
Import PyStr.

Lemma append_nil_l (s : string) : "" +:+ s = s.
Proof. reflexivity. Qed.

Lemma append_cons c (a b : string) : String c a +:+ b = String c (a +:+ b).
Proof. reflexivity. Qed.

Ltac sapp := rewrite ?append_cons, ?append_nil_l in *.

Lemma append_nil_r (s : string) : s +:+ "" = s.
Proof. induction s as [|c s IH]; sapp; [done | by rewrite IH]. Qed.

Lemma append_assoc (a b c : string) : (a +:+ b) +:+ c = a +:+ b +:+ c.
Proof. induction a as [|x a IH]; sapp; [done | by rewrite IH]. Qed.

Lemma split_nonempty sep s : split sep s ≠ [].
Proof.
  destruct s as [|c s]; simpl; [done |].
  case_decide; [done |]. by destruct (split sep s).
Qed.

Lemma join_cons sep p ps :
  ps ≠ [] → join sep (p :: ps) = p +:+ sep +:+ join sep ps.
Proof. by destruct ps. Qed.

(** Joining the pieces of a split on their separator gives the string back. *)
Lemma join_split sep s : join (String sep "") (split sep s) = s.
Proof.
  induction s as [|c s IH]; simpl; [done |].
  pose proof (split_nonempty sep s) as Hne.
  case_decide as Hc.
  - subst c. rewrite join_cons by done. sapp. by rewrite IH.
  - destruct (split sep s) as [|p ps] eqn:E; [done |].
    destruct ps as [|q ps]; simpl in *; sapp; by rewrite <- IH.
Qed.

Lemma split_free sep a : free_of sep a = true → split sep a = [a].
Proof.
  induction a as [|c a IH]; simpl; [done |].
  intros [Hc Ha]%andb_prop. apply negb_true_iff, bool_decide_eq_false in Hc.
  rewrite decide_False by done. by rewrite IH.
Qed.

Lemma split_app sep a b :
  free_of sep a = true → split sep (a +:+ String sep b) = a :: split sep b.
Proof.
  induction a as [|c a IH]; sapp; simpl.
  - intros _. by rewrite decide_True.
  - intros [Hc Ha]%andb_prop. apply negb_true_iff, bool_decide_eq_false in Hc.
    rewrite decide_False by done. by rewrite IH.
Qed.

Lemma forallb_impl (p q : ascii → bool) s :
  (∀ c, p c = true → q c = true) → forallb p s = true → forallb q s = true.
Proof.
  intros Hpq. induction s as [|c s IH]; simpl; [done |].
  intros [Hc Hs]%andb_prop. by rewrite Hpq, IH.
Qed.

Lemma span_spec p s a b :
  span p s = (a, b) →
  s = a +:+ b ∧ forallb p a = true ∧
  match b with "" => True | String c _ => p c = false end.
Proof.
  revert a b. induction s as [|c s IH]; simpl; intros a b E.
  - by simplify_eq.
  - destruct (p c) eqn:Hc.
    + destruct (span p s) as [a' b'] eqn:E'. simplify_eq.
      destruct (IH _ _ eq_refl) as (-> & Ha & Hb). sapp. simpl. by rewrite Hc, Ha.
    + simplify_eq. sapp. simpl. by rewrite Hc.
Qed.

Lemma digit_not_dot c : isdigit c = true → c ≠ "."%char.
Proof. intros H ->. done. Qed.

Lemma digits_free_of_dot s : forallb isdigit s = true → free_of "." s = true.
Proof.
  apply forallb_impl. intros c Hc. apply negb_true_iff, bool_decide_eq_false.
  by apply digit_not_dot.
Qed.
End StrFacts.

Module VersionFacts.
Import PyStr Version StrFacts.

Lemma numeric_digits s : numeric s = true → forallb isdigit s = true.
Proof.
  destruct s as [|c s]; simpl; [done |].
  intros [[Hc Hs]%andb_prop _]%andb_prop. by rewrite Hc, Hs.
Qed.

Lemma uint_of_digits s :
  forallb isdigit s = true → is_Some (NilEmpty.uint_of_string s).
Proof.
  induction s as [|c s IH]; simpl; [by eexists |].
  intros [Hc Hs]%andb_prop. destruct (IH Hs) as [d ->].
  destruct c as [[] [] [] [] [] [] [] []]; try discriminate Hc; by eexists.
Qed.

(** Printing the value of a numeric identifier gives the identifier. *)
Lemma numeric_round_trip s n :
  numeric s = true → N_of_digits s = Some n → str_of_N n = s.
Proof.
  unfold N_of_digits, str_of_N. intros Hnum Hn.
  destruct (NilEmpty.uint_of_string s) as [d|] eqn:Hd; [|done].
  simpl in Hn. injection Hn as <-. rewrite Unsigned.to_of.
  enough (Decimal.unorm d = d) as -> by by apply NilEmpty.sus.
  destruct s as [|c s]; [done |]. simpl in Hnum, Hd.
  apply andb_prop in Hnum as [[Hc Hs]%andb_prop Hz].
  destruct (NilEmpty.uint_of_string s) as [d'|] eqn:Hd'; [|done].
  apply orb_prop in Hz as [Hz | Hz].
  - apply negb_true_iff, bool_decide_eq_false in Hz.
    apply uint_of_char_spec in Hd. by intuition subst.
  - apply bool_decide_eq_true in Hz. subst s. simpl in Hd'. injection Hd' as <-.
    apply uint_of_char_spec in Hd. by intuition subst.
Qed.

Lemma parse_tail_inv t pre bld :
  parse_tail t = Some (pre, bld) → t = tail_string pre bld.
Proof.
  unfold parse_tail, tail_string. destruct t as [|c t]; [by intros [= <- <-] |].
  case_bool_decide as Hc.
  - subst c. destruct (span _ t) as [p rest] eqn:E.
    apply span_spec in E as (-> & _ & Hrest).
    destruct (idents prerelease_ident p); [|done].
    destruct rest as [|c b].
    + intros [= <- <-]. by rewrite !append_nil_r.
    + apply negb_false_iff, bool_decide_eq_true in Hrest. subst c.
      destruct (idents build_ident b); [|done]. by intros [= <- <-].
  - case_bool_decide as Hc'; [|done]. subst c.
    destruct (idents build_ident t); [|done]. by intros [= <- <-].
Qed.

(** A version that parses is made of its three numeric identifiers and
    of the prerelease and build parts that the parser returns. *)
Lemma parse_version_info_inv s v :
  parse_version_info s = Some v →
  ∃ ma mi pa,
    s = ma +:+ "." +:+ mi +:+ "." +:+ pa +:+ tail_string (prerelease v) (build v)
    ∧ numeric ma = true ∧ numeric mi = true ∧ numeric pa = true
    ∧ N_of_digits ma = Some (major v) ∧ N_of_digits mi = Some (minor v)
    ∧ N_of_digits pa = Some (patch v).
Proof.
  unfold parse_version_info.
  destruct (span isdigit s) as [ma r1] eqn:E1.
  apply span_spec in E1 as (-> & _ & _).
  destruct r1 as [|c1 r1]; [done |].
  destruct (decide (c1 = "."%char)) as [->|Hc1]; last first.
  { destruct c1 as [[] [] [] [] [] [] [] []]; done. }
  destruct (span isdigit r1) as [mi r2] eqn:E2.
  apply span_spec in E2 as (-> & _ & _).
  destruct r2 as [|c2 r2]; [done |].
  destruct (decide (c2 = "."%char)) as [->|Hc2]; last first.
  { destruct c2 as [[] [] [] [] [] [] [] []]; done. }
  destruct (span isdigit r2) as [pa r3] eqn:E3.
  apply span_spec in E3 as (-> & _ & _).
  destruct (numeric ma) eqn:Hma; [|done].
  destruct (numeric mi) eqn:Hmi; [|done].
  destruct (numeric pa) eqn:Hpa; [|done]. simpl.
  destruct (N_of_digits ma) as [a|] eqn:Ha; [|done].
  destruct (N_of_digits mi) as [b|] eqn:Hb; [|done].
  destruct (N_of_digits pa) as [c|] eqn:Hc; [|done].
  destruct (parse_tail r3) as [[pre bld]|] eqn:Ht; [|done].
  intros [= <-]. simpl. apply parse_tail_inv in Ht as ->.
  by exists ma, mi, pa.
Qed.

(** Serialising a parsed version gives the string that was parsed. *)
Lemma str_parse_version_info s v :
  parse_version_info s = Some v → str_version v = s.
Proof.
  intros (ma & mi & pa & -> & Hma & Hmi & Hpa & Ha & Hb & Hc)%parse_version_info_inv.
  unfold str_version, tail_string.
  rewrite (numeric_round_trip _ _ Hma Ha), (numeric_round_trip _ _ Hmi Hb),
    (numeric_round_trip _ _ Hpa Hc).
  done.
Qed.

Lemma split_parsed s v :
  parse_version_info s = Some v →
  ∃ ma mi d p ps, split "." s = ma :: mi :: String d p :: ps ∧ isdigit d = true.
Proof.
  intros (ma & mi & pa & -> & Hma & Hmi & Hpa & _)%parse_version_info_inv.
  destruct pa as [|d pa]; [done |]. sapp.
  rewrite !split_app by by apply digits_free_of_dot, numeric_digits.
  assert (isdigit d = true) as Hd.
  { simpl in Hpa. by apply andb_prop in Hpa as [[? _]%andb_prop _]. }
  simpl. rewrite decide_False by by apply digit_not_dot.
  pose proof (split_nonempty "." (pa +:+ tail_string (prerelease v) (build v))).
  destruct (split _ _) as [|p ps]; [done |]. by exists ma, mi, d, p, ps.
Qed.

Lemma split_pieces_free sep s p : p ∈ split sep s → free_of sep p = true.
Proof.
  revert p. induction s as [|c s IH]; simpl; intros p.
  - by intros ->%list_elem_of_singleton.
  - case_decide as Hc.
    + intros [->|?]%elem_of_cons; [done | by apply IH].
    + pose proof (split_nonempty sep s).
      destruct (split sep s) as [|q qs]; [done |].
      intros [->|?]%elem_of_cons.
      * unfold free_of. simpl. rewrite bool_decide_eq_false_2 by done. simpl.
        apply IH. by left.
      * apply IH. by right.
Qed.

(** C4: a version with exactly two dot-separated components, not in the
    ignore list, is refused as ambiguous: the error names the version
    and suggests a release tag ([value.1]) and a release branch
    ([value.x]); no value is returned. *)
Theorem validate_version_minor_is_ambiguous (a b : string) (ignore : list string) :
  free_of "." a = true → free_of "." b = true →
  a +:+ "." +:+ b ∉ ignore →
  let value := a +:+ "." +:+ b in
  validate_version value ignore =
    BadParameter
      ("Using a minor version (" +:+ repr value
       +:+ ") is ambiguous. Use a release tag (e.g. " +:+ repr (value +:+ ".1")
       +:+ ") or a release branch (e.g. " +:+ repr (value +:+ ".x") +:+ ") instead.")
  ∧ ∀ r, validate_version value ignore ≠ Ok r.
Proof.
  intros Ha Hb Hign value.
  assert (split "." value = [a; b]) as Hsplit.
  { unfold value. sapp. by rewrite split_app, split_free. }
  assert (validate_version value ignore = BadParameter (ambiguous_message value)) as ->.
  { unfold validate_version. rewrite bool_decide_eq_false_2 by done.
    by rewrite Hsplit. }
  split; [|done]. reflexivity.
Qed.

Lemma validate_version_minor_is_ambiguous_witness :
  validate_version "7.16" ["origin/master"] =
    BadParameter "Using a minor version ('7.16') is ambiguous. Use a release tag (e.g. '7.16.1') or a release branch (e.g. '7.16.x') instead."
  ∧ ∀ r, validate_version "7.16" ["origin/master"] ≠ Ok r.
Proof.
  apply (validate_version_minor_is_ambiguous "7" "16" ["origin/master"]).
  - reflexivity.
  - reflexivity.
  - apply not_elem_of_cons. split; [discriminate | apply not_elem_of_nil].
Defined.

(** C5: the normaliser gives back what it is given on well-formed
    references: a release branch [M.m.x] whose [M.m.0] is a valid
    version, and a full version [major.minor.patch] with its optional
    prerelease. *)
Theorem validate_version_round_trip :
  (∀ (M m : string) (v : VersionInfo) (ignore : list string),
      free_of "." M = true → free_of "." m = true →
      parse_version_info (M +:+ "." +:+ m +:+ ".0") = Some v →
      validate_version (M +:+ "." +:+ m +:+ ".x") ignore = Ok (M +:+ "." +:+ m +:+ ".x"))
  ∧ (∀ (s : string) (v : VersionInfo) (ignore : list string),
      parse_version_info s = Some v → validate_version s ignore = Ok s).
Proof.
  split.
  - intros M m v ignore HM Hm Hv. unfold validate_version.
    case_bool_decide; [done |].
    assert (split "." (M +:+ "." +:+ m +:+ ".x") = [M; m; "x"]) as ->.
    { sapp. by rewrite !split_app. }
    simpl. unfold parse_version.
    change (parse_version_info _) with (parse_version_info (M +:+ "." +:+ m +:+ ".0")).
    rewrite Hv.
    apply parse_version_info_inv in Hv
      as (ma & mi & pa & E & Hma & Hmi & Hpa & Ha & Hb & _).
    sapp. apply (f_equal (split ".")) in E.
    rewrite !split_app in E
      by (done || by apply digits_free_of_dot, numeric_digits).
    injection E as <- <- _.
    by rewrite (numeric_round_trip _ _ Hma Ha), (numeric_round_trip _ _ Hmi Hb).
  - intros s v ignore Hv. unfold validate_version.
    case_bool_decide; [done |].
    destruct (split_parsed _ _ Hv) as (ma & mi & d & p & ps & Hs & Hd).
    assert (join "." (split "." s) = s) as Hjoin by apply join_split.
    rewrite Hs in *. simpl length.
    rewrite bool_decide_eq_false_2 by done.
    assert (bool_decide (S (S (S (length ps))) = 3)
            && bool_decide (last (ma :: mi :: String d p :: ps) = Some "x") = false) as ->.
    { apply andb_false_iff. destruct ps as [|q ps].
      - right. apply bool_decide_eq_false. simpl. intros [= -> ->]. done.
      - left. by apply bool_decide_eq_false. }
    unfold parse_version. rewrite Hjoin, Hv. f_equal. by apply str_parse_version_info.
Qed.

Lemma validate_version_round_trip_witness :
  validate_version "7.17.x" ["origin/master"] = Ok "7.17.x"
  ∧ validate_version "7.17.0-rc.2" ["origin/master"] = Ok "7.17.0-rc.2".
Proof.
  split.
  - apply (proj1 validate_version_round_trip "7" "17"
             (mkVersionInfo 7 17 0 None None) ["origin/master"]); reflexivity.
  - apply (proj2 validate_version_round_trip "7.17.0-rc.2"
             (mkVersionInfo 7 17 0 (Some "rc.2") None) ["origin/master"]); reflexivity.
Defined.
End VersionFacts.

(** ** The review loop and the card dispatcher *)

Module ReleaseFacts.
Import PyStr Release StrFacts.

Section Facts.

Context `{Collaborators}.

Lemma grows_refl P st : grows P st st.
Proof. split; [done |]. exists []. by rewrite app_nil_r. Qed.

Lemma grows_trans P st1 st2 st3 :
  grows P st1 st2 → grows P st2 st3 → grows P st1 st3.
Proof.
  intros [Hc1 (e1 & Ho1 & HP1)] [Hc2 (e2 & Ho2 & HP2)].
  split; [congruence |]. exists (e1 ++ e2).
  rewrite Ho2, Ho1, (assoc_L (++)). split; [done | by apply Forall_app].
Qed.

Lemma grows_emit (P : Event → Prop) e st : P e → grows P st (emit e st).
Proof. intros He. split; [done |]. exists [e]. split; [done | by constructor]. Qed.

Lemma grows_set_world P w st : grows P st (set_world w st).
Proof. split; [done |]. exists []. by rewrite app_nil_r. Qed.

Lemma grows_mono (P Q : Event → Prop) st st' :
  (∀ e, P e → Q e) → grows P st st' → grows Q st st'.
Proof.
  intros HPQ [Hc (evs & Ho & HP)]. split; [done |]. exists evs.
  split; [done |]. by eapply Forall_impl.
Qed.

Ltac grow :=
  repeat first
    [ apply grows_refl
    | (eapply grows_trans; [| apply grows_emit; done])
    | (eapply grows_trans; [| apply grows_set_world]) ].

Lemma attempts_grows team pr_title body range st :
  grows card_event st (attempts team pr_title body range st).
Proof.
  revert st. induction range as [|attempt range IH]; intros st; simpl.
  - apply grows_refl.
  - destruct (create_card _ _ _ _) as [r w].
    destruct (rate_limited r).
    { eapply grows_trans; [| apply IH]. grow. }
    destruct (truthy (error r)) as [err|]; [| grow].
    case_bool_decide; [grow |].
    eapply grows_trans; [| apply IH]. grow.
Qed.

Lemma teams_loop_grows teams pr_title body dry_run st :
  grows card_event st (teams_loop teams pr_title body dry_run st).
Proof.
  revert st. induction teams as [|team teams IH]; intros st; cbn [teams_loop].
  - apply grows_refl.
  - destruct dry_run.
    + eapply grows_trans; [| apply IH]. grow.
    + eapply grows_trans; [apply attempts_grows | apply IH].
Qed.

Lemma create_trello_card_grows teams pr_title pr_url pr_body dry_run st :
  grows card_event st (create_trello_card teams pr_title pr_url pr_body dry_run st).
Proof. apply teams_loop_grows. Qed.

(** The teams are served one after the other, whatever happened to
    the cards of the teams before. *)
Lemma teams_loop_app teams1 teams2 pr_title body dry_run st :
  teams_loop (teams1 ++ teams2) pr_title body dry_run st =
  teams_loop teams2 pr_title body dry_run (teams_loop teams1 pr_title body dry_run st).
Proof.
  revert st. induction teams1 as [|team teams1 IH]; intros st; [done |].
  cbn [teams_loop app]. by destruct dry_run; rewrite IH.
Qed.

Lemma display_grows run pr choice_error st :
  grows no_lookup st (display run pr choice_error st).2.
Proof.
  unfold display. destruct (pr_body pr); simpl.
  - case_bool_decide; grow.
  - repeat case_bool_decide; grow.
Qed.

Lemma prompt_loop_grows run pr fresh choice_error keys st :
  grows no_lookup st (prompt_loop run pr fresh choice_error keys st).2.
Proof.
  revert fresh choice_error st.
  induction keys as [|key keys IH]; intros fresh choice_error st; simpl.
  - assert (grows no_lookup st
              (if fresh then display run pr choice_error st else (true, st)).2) as Hd.
    { destruct fresh; [apply display_grows | apply grows_refl]. }
    destruct (if fresh then _ else _) as [shown st1]. by destruct shown.
  - assert (grows no_lookup st
              (if fresh then display run pr choice_error st else (true, st)).2) as Hd.
    { destruct fresh; [apply display_grows | apply grows_refl]. }
    destruct (if fresh then _ else _) as [shown st1]. simpl in Hd.
    destruct shown; simpl; [| done].
    case_bool_decide.
    { eapply grows_trans; [done | apply IH]. }
    destruct (lookup_option _ _) as [value|].
    + repeat case_bool_decide; simpl.
      * eapply grows_trans; [done |]. grow.
      * eapply grows_trans; [done |]. grow.
      * eapply grows_trans; [done |].
        eapply grows_trans;
          [| eapply grows_mono; [| apply create_trello_card_grows]; by intros ? [? ?]].
        grow.
    + eapply grows_trans; [done |]. eapply grows_trans; [| apply IH]. grow.
Qed.

Lemma process_grows run i commit_subject commit_id pr_data keys st :
  grows no_lookup st (process run i commit_subject commit_id pr_data keys st).2.
Proof.
  unfold process. destruct (label_flags _ _ _) as [[d n]|]; [| apply grows_refl].
  destruct (d && n); [simpl; grow |].
  destruct (_ && _); [simpl; grow |].
  case_bool_decide; simpl.
  - eapply grows_mono; [| apply create_trello_card_grows]. by intros ? [? ?].
  - apply prompt_loop_grows.
Qed.


Lemma grows_commit_ids P st st' : grows P st st' → commit_ids st' = commit_ids st.
Proof. by intros [? _]. Qed.

(** **** The label scan *)

Lemma startswith_spec p s : startswith p s = true ↔ ∃ t, s = p +:+ t.
Proof.
  unfold startswith. revert s. induction p as [|a p IH]; intros s.
  - destruct s; (split; [intros _; by eexists | done]).
  - destruct s as [|b s]; simpl.
    + split; [done | by intros [t ?]].
    + destruct (ascii_dec a b) as [->|Hab].
      * rewrite IH. split; intros [t Ht]; exists t.
        -- by rewrite Ht.
        -- sapp. by simplify_eq.
      * split; [done |]. intros [t Ht]. sapp. by simplify_eq.
Qed.

Lemma changelog_type_of label :
  startswith CHANGELOG_LABEL_PREFIX label = true →
  ∃ type, changelog_label label type ∧ split1 "/" label !! 1 = Some type.
Proof. intros [t ->]%startswith_spec. by exists t. Qed.

Lemma changelog_label_startswith label type :
  changelog_label label type → startswith CHANGELOG_LABEL_PREFIX label = true.
Proof. intros ->. apply startswith_spec. by eexists. Qed.

(** The scan never fails, and computes the two flags of the filter. *)
Lemma label_flags_spec pr_labels d n :
  ∃ d' n', label_flags pr_labels d n = Some (d', n')
    ∧ (d' = true ↔ d = true ∨ ∃ label, label ∈ pr_labels ∧ documentation_label label)
    ∧ (n' = true ↔ n = true ∧ ∀ label type,
          label ∈ pr_labels → changelog_label label type → type = CHANGELOG_TYPE_NONE).
Proof.
  revert d n. induction pr_labels as [|label rest IH]; intros d n; simpl.
  - exists d, n. split; [done |]. split.
    + split; [by left | intros [? | (? & []%elem_of_nil & _)]; done].
    + split; [intros ?; split; [done | by intros ?? ?%elem_of_nil] | by intros [? _]].
  - set (d1 := if startswith "documentation" label then true else d).
    assert (d1 = true ↔ d = true ∨ documentation_label label) as Hd1.
    { unfold d1, documentation_label. destruct (startswith "documentation" label);
        naive_solver. }
    destruct (startswith CHANGELOG_LABEL_PREFIX label) eqn:Hp.
    + destruct (changelog_type_of _ Hp) as (type & Hl & ->).
      case_bool_decide as Ht.
      * destruct (IH d1 false) as (d' & n' & -> & Hd' & Hn').
        exists d', n'. split; [done |]. split.
        -- rewrite Hd', Hd1. set_solver.
        -- rewrite Hn'. split; [naive_solver |]. intros [_ Hall].
           exfalso. apply Ht. eapply Hall; [by left | done].
      * destruct (IH d1 n) as (d' & n' & -> & Hd' & Hn').
        exists d', n'. split; [done |]. split.
        -- rewrite Hd', Hd1. set_solver.
        -- rewrite Hn'. split.
           ++ intros [? Hall]. split; [done |].
              intros l t [->|?]%elem_of_cons Hlt; [| by eapply Hall].
              unfold changelog_label in *. subst. by simplify_eq.
           ++ intros [? Hall]. split; [done |]. intros l t ??. eapply Hall; [by right | done].
    + destruct (IH d1 n) as (d' & n' & -> & Hd' & Hn').
      exists d', n'. split; [done |]. split.
      * rewrite Hd', Hd1. set_solver.
      * rewrite Hn'. split.
        -- intros [? Hall]. split; [done |].
           intros l t [->|?]%elem_of_cons Hlt; [| by eapply Hall].
           apply changelog_label_startswith in Hlt. congruence.
        -- intros [? Hall]. split; [done |]. intros l t ??. eapply Hall; [by right | done].
Qed.

Lemma elem_of_sorted label labels : label ∈ sorted labels ↔ label ∈ labels.
Proof. unfold sorted. by rewrite merge_sort_Permutation. Qed.

(** The flags of the sorted labels of a pull request. *)
Lemma label_flags_sorted labels :
  ∃ d n, label_flags (sorted labels) false true = Some (d, n)
    ∧ (d = true ↔ ∃ label, label ∈ labels ∧ documentation_label label)
    ∧ (n = true ↔ ∀ label type,
          label ∈ labels → changelog_label label type → type = CHANGELOG_TYPE_NONE).
Proof.
  destruct (label_flags_spec (sorted labels) false true) as (d & n & E & Hd & Hn).
  exists d, n. split; [done |]. split.
  - rewrite Hd. setoid_rewrite elem_of_sorted. naive_solver.
  - rewrite Hn. setoid_rewrite elem_of_sorted. naive_solver.
Qed.


(** **** The prompt *)

Lemma prompt_loop_exit run pr fresh choice_error keys st :
  prompt_exit (commit_id pr) (prompt_loop run pr fresh choice_error keys st).1.1.
Proof.
  unfold prompt_exit. revert fresh choice_error st.
  induction keys as [|key keys IH]; intros fresh choice_error st; simpl.
  - destruct (if fresh then _ else _) as [[] st1]; simpl; auto.
  - destruct (if fresh then _ else _) as [[] st1]; simpl; auto.
    case_bool_decide; [apply IH |].
    destruct (lookup_option _ _); [| apply IH].
    repeat case_bool_decide; simpl; eauto 10.
Qed.

(** **** One pull request *)

(** C6: a pull request with a documentation label and no changelog
    type other than the "none" type is skipped as documentation; one
    with a changelog label of another type is not skipped by this
    rule. *)
Theorem documentation_filter run i commit_subject commit_id pr_data keys st :
  let labels := get_pr_labels pr_data in
  ((∃ label, label ∈ labels ∧ documentation_label label)
   → (∀ label type, label ∈ labels → changelog_label label type → type = CHANGELOG_TYPE_NONE)
   → process run i commit_subject commit_id pr_data keys st =
       (XDocumentation commit_id, keys,
        emit (echo_info ("Skipping documentation " +:+ format_commit_id commit_id +:+ ".")) st))
  ∧ ((∃ label type, label ∈ labels ∧ changelog_label label type ∧ type ≠ CHANGELOG_TYPE_NONE)
     → ∀ c, (process run i commit_subject commit_id pr_data keys st).1.1 ≠ XDocumentation c).
Proof.
  intros labels. unfold process. fold labels.
  destruct (label_flags_sorted labels) as (d & n & -> & Hd & Hn). split.
  - intros Hdoc Hnone. apply Hd in Hdoc as ->. apply Hn in Hnone as ->. done.
  - intros (label & type & Hin & Hl & Ht) c.
    assert (n = false) as ->.
    { destruct n; [| done]. exfalso. apply Ht. by eapply (proj1 Hn). }
    rewrite andb_false_r.
    destruct (_ && _); [done |].
    case_bool_decide; [done |].
    match goal with |- (prompt_loop ?r ?p ?f ?e ?k ?s).1.1 ≠ _ =>
      pose proof (prompt_loop_exit r p f e k s) as Hx end.
    unfold prompt_exit in Hx. intros E. rewrite E in Hx. naive_solver.
Qed.

Lemma grows_elem_of P st st' e : grows P st st' → e ∈ out st → e ∈ out st'.
Proof. intros [_ (evs & -> & _)] ?. apply elem_of_app. by left. Qed.

Lemma grows_prefix P st st' : grows P st st' → out st `prefix_of` out st'.
Proof. intros [_ (evs & -> & _)]. by exists evs. Qed.

(** Without [--dry-run] the Trello client is called for every team. *)
Lemma attempts_calls team pr_title body attempt range st :
  CreateCard team pr_title body ∈ out (attempts team pr_title body (attempt :: range) st).
Proof.
  cbn [attempts]. destruct (create_card _ _ _ _) as [r w].
  assert (CreateCard team pr_title body
            ∈ out (emit (CreateCard team pr_title body) (set_world w st))) as Hin.
  { simpl. apply elem_of_app. right. by left. }
  destruct (rate_limited r).
  { eapply grows_elem_of; [apply attempts_grows |].
    eapply (grows_elem_of (λ _, True)); [| exact Hin]. grow. }
  destruct (truthy (error r)).
  - case_bool_decide.
    + eapply (grows_elem_of (λ _, True)); [| exact Hin]. grow.
    + eapply grows_elem_of; [apply attempts_grows |].
      eapply (grows_elem_of (λ _, True)); [| exact Hin]. grow.
  - eapply (grows_elem_of (λ _, True)); [| exact Hin]. grow.
Qed.

Lemma teams_loop_calls teams team pr_title body st :
  team ∈ teams →
  CreateCard team pr_title body ∈ out (teams_loop teams pr_title body false st).
Proof.
  revert st. induction teams as [|t teams IH]; intros st Hin; [by apply elem_of_nil in Hin |].
  cbn [teams_loop]. apply elem_of_cons in Hin as [<- | Hin]; [| by apply IH].
  eapply grows_elem_of; [apply teams_loop_grows | apply attempts_calls].
Qed.

Lemma elem_of_teams_of team pr_labels :
  team ∈ teams_of pr_labels
  ↔ ∃ label, label ∈ pr_labels ∧ label_team_map !! label = Some team.
Proof. unfold teams_of. apply list_elem_of_omap. Qed.

Lemma process_exits run i commit_subject commit_id pr_data keys st :
  process_exit commit_id (process run i commit_subject commit_id pr_data keys st).1.1.
Proof.
  unfold process, process_exit.
  destruct (label_flags _ _ _) as [[d n]|]; [| by left].
  destruct (d && n); [by right; left |].
  destruct (_ && _); [by right; right; left |].
  case_bool_decide; [right; right; right; left; by eexists |].
  right; right; right; right. apply (prompt_loop_exit _ (mkShown _ _ _ _ _ _ _ _)).
Qed.

Lemma process_exit_processed c x : process_exit c x → processed x = Some c.
Proof. unfold process_exit, prompt_exit. naive_solver. Qed.

Lemma passes_filters_flags labels d n :
  passes_label_filter labels →
  (d = true ↔ ∃ label, label ∈ labels ∧ documentation_label label) →
  (n = true ↔ ∀ label type,
      label ∈ labels → changelog_label label type → type = CHANGELOG_TYPE_NONE) →
  d && n = false.
Proof.
  intros [Hnodoc | (label & type & Hin & Hl & Ht)] Hd Hn.
  - destruct d; [| done]. destruct (proj1 Hd eq_refl) as (l & ? & ?). by destruct (Hnodoc l).
  - destruct n; [| by rewrite andb_false_r]. destruct Ht. by eapply (proj1 Hn).
Qed.

Lemma passes_milestone wanted pr_milestone :
  passes_milestone_filter wanted pr_milestone →
  bool_decide (truthy wanted ≠ None) && bool_decide (Some pr_milestone ≠ wanted) = false.
Proof.
  intros [Hw | ->].
  - by rewrite Hw.
  - rewrite (bool_decide_eq_false_2 (Some pr_milestone ≠ Some pr_milestone)) by by intros ?.
    apply andb_false_r.
Qed.

(** C7: a pull request that is not a duplicate, passes the label and
    milestone filters and has a label that maps to a team gets its
    cards for exactly the teams of its labels, with no prompt: no key
    is read and the menu prompt is not shown. *)
Theorem auto_route run i commit_subject commit_id pr_data keys st :
  let labels := get_pr_labels pr_data in
  (commit_id = "" ∨ commit_id ∉ commit_ids st) →
  passes_label_filter labels →
  passes_milestone_filter (milestone run) (get_pr_milestone pr_data) →
  (∃ label team, label ∈ labels ∧ label_team_map !! label = Some team) →
  ∃ teams st',
    handle run i commit_subject commit_id pr_data keys st
      = (XAutoRouted commit_id teams, keys, st')
    ∧ (∀ team, team ∈ teams
         ↔ ∃ label, label ∈ labels ∧ label_team_map !! label = Some team)
    ∧ st' = create_trello_card teams
              (default commit_subject (title pr_data))
              (default ("https://github.com/DataDog/" +:+ repo run +:+ "/pull/" +:+ commit_id)
                       (html_url pr_data))
              (default (JStr "") (body pr_data)) (dry_run run)
              (add_commit_id commit_id st)
    ∧ (∃ evs, out st' = out st ++ evs ∧ Forall (λ e, is_prompt e = false) evs)
    ∧ (dry_run run = false →
       ∀ team, team ∈ teams → ∃ name body, CreateCard team name body ∈ out st').
Proof.
  intros labels Hnew Hlab Hmil (label & team & Hin & Hteam).
  exists (teams_of (sorted labels)). eexists. split; [| split; [| split; [reflexivity |]]].
  - unfold handle.
    assert (bool_decide (commit_id ≠ "") && bool_decide (commit_id ∈ commit_ids st) = false) as ->.
    { destruct Hnew as [-> | Hnew].
      - by rewrite (bool_decide_eq_false_2 (_ ≠ _)) by by intros ?.
      - by rewrite (bool_decide_eq_false_2 (_ ∈ _)), andb_false_r. }
    unfold process. fold labels.
    destruct (label_flags_sorted labels) as (d & n & -> & Hd & Hn).
    rewrite (passes_filters_flags labels d n) by done.
    rewrite passes_milestone by done.
    rewrite bool_decide_eq_true_2; [done |].
    intros Hnil. assert (team ∈ teams_of (sorted labels)) as Ht.
    { apply elem_of_teams_of. exists label. by rewrite elem_of_sorted. }
    rewrite Hnil in Ht. by apply elem_of_nil in Ht.
  - intros t. rewrite elem_of_teams_of. by setoid_rewrite elem_of_sorted.
  - split.
    + match goal with |- context [create_trello_card ?t ?a ?b ?c ?d ?s] =>
        destruct (create_trello_card_grows t a b c d s) as [_ (evs & Ho & Hev)] end.
      exists evs. split; [exact Ho |]. eapply Forall_impl; [exact Hev |]. by intros ? [_ ?].
    + intros Hdry t Ht. rewrite Hdry. do 2 eexists. by apply teams_loop_calls.
Qed.

Lemma display_shown_again run pr choice_error choice_error' st st1 st' :
  display run pr choice_error st = (true, st1) →
  ∃ st2, display run pr choice_error' st' = (true, st2)
    ∧ (choice_error' ≠ "" → echo_warning choice_error' ∈ out st2).
Proof.
  unfold display. destruct (pr_body pr) as [|pr_body]; [done |]. intros _.
  eexists. split; [reflexivity |]. intros Hne.
  rewrite (bool_decide_eq_true_2 (choice_error' ≠ "")) by done.
  simpl. apply elem_of_app. left. apply elem_of_app. right. by left.
Qed.

(** C8 (amended): at the prompt, a keypress that is empty once
    stripped stands for the default key, the first key of the menu of
    the repository, so the card goes to the team of that first entry; a
    key that is neither empty nor a null byte once stripped and is not
    in the menu is echoed and the same pull request, with the same
    progress status, is displayed again, now with the error message; a
    null byte is dropped, and the next key is read with no message and
    no new display. *)
Theorem prompt_choice run pr choice_error key keys st st1 :
  display run pr choice_error st = (true, st1) →
  (strip key = "" →
   options run = options_of (repo run) →
   get_next (options run) = Some (default_option run) →
   ∃ team, head (options run) = Some (default_option run, team)
     ∧ prompt_loop run pr true choice_error (key :: keys) st
       = (XCard (commit_id pr) team, keys,
          create_trello_card [team] (pr_title pr) (pr_url pr) (pr_body pr) (dry_run run)
            (emit (echo_info team) st1)))
  ∧ (∀ choice, choice = strip key → choice ≠ "" → choice ≠ NUL →
      lookup_option choice (options run) = None →
      prompt_loop run pr true choice_error (key :: keys) st
        = prompt_loop run pr true (invalid_choice choice) keys (emit (echo_info choice) st1)
      ∧ ∃ st2, display run pr (invalid_choice choice) (emit (echo_info choice) st1) = (true, st2)
          ∧ echo_warning (invalid_choice choice) ∈ out st2)
  ∧ (strip key = NUL →
     prompt_loop run pr true choice_error (key :: keys) st
       = prompt_loop run pr false choice_error keys st1).
Proof.
  intros Hshow. split; [| split].
  - intros Hkey Hopts Hdef. cbn [prompt_loop]. rewrite Hshow. cbn [negb].
    rewrite Hkey. rewrite (bool_decide_eq_false_2 ("" = NUL)) by done.
    rewrite (bool_decide_eq_true_2 ("" = "")) by done.
    rewrite Hopts in *. unfold options_of in *. case_bool_decide.
    + injection Hdef as <-. by exists "Integrations".
    + injection Hdef as <-. by exists "Core".
  - intros choice -> Hne Hnul Hlook. split.
    + cbn [prompt_loop]. rewrite Hshow. cbn [negb].
      rewrite (bool_decide_eq_false_2 (strip key = NUL)) by done.
      rewrite (bool_decide_eq_false_2 (strip key = "")) by done.
      by rewrite Hlook.
    + eapply display_shown_again in Hshow as (st2 & -> & Hin).
      exists st2. split; [done |]. apply Hin. unfold invalid_choice. by sapp.
  - intros Hkey. cbn [prompt_loop]. rewrite Hshow. cbn [negb].
    by rewrite Hkey, bool_decide_eq_true_2.
Qed.

(** When the last of the three attempts fails with an error that is
    not a rate limit, the failure is reported. *)
Lemma attempts_last_error_reported team pr_title body st r w err :
  create_card team pr_title body (world st) = (r, w) →
  rate_limited r = false → truthy (error r) = Some err →
  attempts team pr_title body [2] st
    = emit (echo_failure ("Error: " +:+ err)) (emit (CreateCard team pr_title body) (set_world w st)).
Proof. intros Hc Hr He. cbn [attempts]. by rewrite Hc, Hr, He. Qed.

(** When the last attempt is rate limited the loop ends on the wait:
    nothing is reported after it. *)
Lemma attempts_last_rate_limited team pr_title body st r w :
  create_card team pr_title body (world st) = (r, w) →
  rate_limited r = true →
  attempts team pr_title body [2] st
    = emit (Sleep 10)
        (emit (echo_warning (retry_message "A rate limit in effect" 2 10))
           (emit (CreateCard team pr_title body) (set_world w st))).
Proof. intros Hc Hr. cbn [attempts]. by rewrite Hc, Hr. Qed.

(** **** The whole run *)

Lemma lookups_app a b : lookups (a ++ b) = lookups a + lookups b.
Proof. unfold lookups. by rewrite filter_app, length_app. Qed.

Lemma lookups_none evs : Forall no_lookup evs → lookups evs = 0.
Proof.
  unfold lookups, no_lookup. induction 1 as [|e evs He _ IH]; [done |].
  rewrite filter_cons_False; [done |]. by rewrite He.
Qed.

Lemma grows_lookups st st' : grows no_lookup st st' → lookups (out st') = lookups (out st).
Proof.
  intros [_ (evs & -> & Hev)]. rewrite lookups_app, (lookups_none evs) by done. lia.
Qed.

(** One lookup is made for the change, whatever the seen set holds. *)
Lemma resolve_spec run commit_hash commit_subject st r st' :
  resolve run commit_hash commit_subject st = (r, st') →
  commit_ids st' = commit_ids st
  ∧ lookups (out st') = S (lookups (out st))
  ∧ out st `prefix_of` out st'
  ∧ match r with
    | Unresolved x => processed x = None ∧ ∀ c, x ≠ XDuplicate c
    | Resolved _ _ => True
    end.
Proof.
  unfold resolve.
  assert (∀ e st0 w, is_lookup e = true →
            lookups (out (emit e (set_world w st0))) = S (lookups (out st0))) as Hone.
  { intros e st0 w He. simpl. rewrite lookups_app. unfold lookups at 2.
    rewrite filter_cons_True by done. simpl. lia. }
  assert (∀ e e' st0 w, is_lookup e = true → is_lookup e' = false →
            lookups (out (emit e' (emit e (set_world w st0)))) = S (lookups (out st0))) as Htwo.
  { intros e e' st0 w He He'. change (out (emit e' ?s)) with (out s ++ [e']).
    rewrite lookups_app, Hone by done. unfold lookups at 2.
    rewrite filter_cons_False by by rewrite He'. simpl. lia. }
  assert (∀ e st0 w, out st0 `prefix_of` out (emit e (set_world w st0))) as Hp1.
  { intros. by eexists. }
  assert (∀ e e' st0 w, out st0 `prefix_of` out (emit e' (emit e (set_world w st0)))) as Hp2.
  { intros. simpl. rewrite <- (assoc_L (++)). by eexists. }
  destruct (truthy (parse_pr_number commit_subject)) as [commit_id|].
  - destruct (get_pr _ _) as [api_response w].
    repeat case_bool_decide; try destruct (http_error api_response);
      intros [= <- <-]; rewrite ?Hone, ?Htwo by done; auto 10.
  - destruct (get_pr_from_hash _ _ _) as [api_response w].
    repeat case_bool_decide; try destruct (http_error api_response);
      intros [= <- <-]; rewrite ?Hone, ?Htwo by done; auto 10.
Qed.

(** The duplicate check: either the id is not empty and was seen, and
    the iteration ends there, or the id is recorded and processed. *)
Lemma handle_spec run i commit_subject c pr_data keys st x keys' st' :
  handle run i commit_subject c pr_data keys st = (x, keys', st') →
  lookups (out st') = lookups (out st)
  ∧ out st `prefix_of` out st'
  ∧ ((x = XDuplicate c ∧ c ≠ "" ∧ c ∈ commit_ids st ∧ commit_ids st' = commit_ids st
      ∧ echo_info ("Already seen PR #" +:+ c +:+ ", skipping it.") ∈ out st')
     ∨ (processed x = Some c ∧ (c = "" ∨ c ∉ commit_ids st)
        ∧ commit_ids st' = {[c]} ∪ commit_ids st)).
Proof.
  unfold handle. destruct (_ && _) eqn:Hdup.
  - intros [= <- <- <-]. apply andb_prop in Hdup as [Hne%bool_decide_eq_true Hin%bool_decide_eq_true].
    split; [| split; [by eexists | left]].
    + simpl. rewrite lookups_app. unfold lookups at 2. by rewrite filter_cons_False.
    + repeat split; try done. simpl. apply elem_of_app. right. by left.
  - intros E.
    pose proof (process_grows run i commit_subject c pr_data keys (add_commit_id c st)) as Hg.
    pose proof (process_exits run i commit_subject c pr_data keys (add_commit_id c st)) as Hx.
    rewrite E in Hg, Hx. simpl in Hg, Hx.
    split; [by rewrite (grows_lookups _ _ Hg) | split; [by apply (grows_prefix _ _ _ Hg) | right]].
    split; [by apply process_exit_processed |]. split.
    + apply andb_false_iff in Hdup as [Hd%bool_decide_eq_false | Hd%bool_decide_eq_false].
      * left. by apply dec_stable.
      * by right.
    + by rewrite (grows_commit_ids _ _ _ Hg).
Qed.

Lemma step_spec run i change keys st x keys' st' :
  step run i change keys st = (x, keys', st') →
  lookups (out st') ≤ S (lookups (out st))
  ∧ out st `prefix_of` out st'
  ∧ ((processed x = None ∧ commit_ids st' = commit_ids st
      ∧ ∀ c, x = XDuplicate c → c ≠ "" ∧ c ∈ commit_ids st)
     ∨ (∃ c, processed x = Some c ∧ (c = "" ∨ c ∉ commit_ids st)
          ∧ commit_ids st' = {[c]} ∪ commit_ids st)).
Proof.
  unfold step. destruct change as [|commit_hash [|commit_subject [|? ?]]];
    try (intros [= <- <- <-]; split; [lia | split; [done | left; done]]).
  destruct (resolve _ _ _ _) as [r st1] eqn:Hr.
  apply resolve_spec in Hr as (Hc & Hl & Hp & Hr).
  destruct r as [c pr_data | x1].
  - intros (Hl2 & Hp2 & Hcase)%handle_spec.
    split; [lia | split; [by etrans |]].
    destruct Hcase as [(-> & ? & ? & ? & _) | (? & ? & ?)].
    + left. split; [done |]. split; [congruence |]. intros c' [= <-]. by rewrite <- Hc.
    + right. exists c. rewrite <- Hc. done.
  - intros [= <- <- <-]. destruct Hr as [Hn Hd].
    split; [lia | split; [done | left]]. split; [done |]. split; [done |].
    intros c ->. by destruct (Hd c).
Qed.

Lemma times_processed_cons c x log :
  times_processed c (x :: log)
  = (if decide (processed x = Some c) then 1 else 0) + times_processed c log.
Proof.
  unfold times_processed. case_decide.
  - by rewrite filter_cons_True.
  - by rewrite filter_cons_False.
Qed.

(** What a run keeps true from any state on: a lookup per iteration
    at most, an output and a seen set that only grow, no duplicate
    exit for the empty id, and, for an id that is not empty, no
    processing when it was seen before and one at most otherwise,
    that one being what puts it in the seen set. *)
Lemma review_spec run i changes keys st log keys' st' :
  review run i changes keys st = (log, keys', st') →
  length log ≤ length changes
  ∧ lookups (out st') ≤ lookups (out st) + length log
  ∧ out st `prefix_of` out st'
  ∧ commit_ids st ⊆ commit_ids st'
  ∧ (XDuplicate "" ∉ log)
  ∧ (∀ c, c ≠ "" →
      (c ∈ commit_ids st → times_processed c log = 0)
      ∧ (c ∉ commit_ids st →
         times_processed c log = if decide (c ∈ commit_ids st') then 1 else 0)).
Proof.
  revert i keys st log keys' st'.
  induction changes as [|change changes IH]; intros i keys st log keys' st'.
  - intros [= <- <- <-]. repeat split; try done; try lia.
    + by intros ?%elem_of_nil.
    + intros ?. by rewrite decide_False.
  - cbn [review]. destruct (step run i change keys st) as [[x k1] st1] eqn:Hstep.
    apply step_spec in Hstep as (Hl1 & Hp1 & Hcase).
    assert (commit_ids st ⊆ commit_ids st1) as Hsub1.
    { destruct Hcase as [(_ & -> & _) | (c & _ & _ & ->)]; set_solver. }
    assert (x ≠ XDuplicate "") as Hnd.
    { intros ->. destruct Hcase as [(_ & _ & Hd) | (c & [=] & _)]. by destruct (Hd "" eq_refl). }
    assert (∀ c, c ≠ "" →
              (c ∈ commit_ids st → processed x ≠ Some c)
              ∧ (processed x = Some c → c ∈ commit_ids st1)
              ∧ (processed x ≠ Some c → c ∈ commit_ids st1 → c ∈ commit_ids st)) as Hx.
    { intros c Hc. destruct Hcase as [(Hn & -> & _) | (c0 & Hp & Hnew & ->)].
      - rewrite Hn. done.
      - rewrite Hp. split; [| split].
        + intros Hin [= ->]. by destruct Hnew.
        + intros [= ->]. set_solver.
        + intros Hne. set_solver. }
    destruct (continues x).
    + destruct (review run (S i) changes k1 st1) as [[log2 k2] st2] eqn:Hrev.
      intros [= <- <- <-].
      apply IH in Hrev as (Hlen & Hl2 & Hp2 & Hsub2 & Hnd2 & Hc2).
      split; [simpl; lia |]. split; [simpl; lia |]. split; [by etrans |].
      split; [by etrans |]. split; [by apply not_elem_of_cons |].
      intros c Hc. destruct (Hx c Hc) as (Hx1 & Hx2 & Hx3).
      destruct (Hc2 c Hc) as [Hseen Hnew].
      rewrite times_processed_cons. split.
      * intros Hin. rewrite decide_False by by apply Hx1.
        rewrite Hseen; [done | set_solver].
      * intros Hnin. destruct (decide (processed x = Some c)) as [Hpx|Hpx].
        -- rewrite Hseen by by apply Hx2.
           rewrite decide_True; [done |]. specialize (Hx2 Hpx). set_solver.
        -- rewrite Hnew; [done |]. intros ?. by apply Hnin, Hx3.
    + intros [= <- <- <-].
      split; [simpl; lia |]. split; [simpl; lia |]. split; [done |]. split; [done |].
      split; [apply not_elem_of_cons; split; [done | apply not_elem_of_nil] |].
      intros c Hc. destruct (Hx c Hc) as (Hx1 & Hx2 & Hx3).
      rewrite times_processed_cons. change (times_processed c []) with 0. split.
      * intros Hin. by rewrite decide_False by by apply Hx1.
      * intros Hnin. destruct (decide (processed x = Some c)) as [Hpx|Hpx].
        -- by rewrite decide_True by by apply Hx2.
        -- rewrite decide_False; [done |]. intros ?. by apply Hnin, Hx3.
Qed.


Lemma testable_review repo stdout milestone dry_run keys w log keys' st' :
  repo ∈ ["integrations-core"; "datadog-agent"] →
  testable repo stdout milestone dry_run keys w = (log, keys', st') →
  ∃ run, review run 1 (diff_data stdout) keys (mkState w ∅ []) = (log, keys', st').
Proof.
  intros Hrepo. unfold testable. rewrite bool_decide_eq_true_2 by done. cbn [negb].
  destruct (get_next (options_of repo)) as [d|] eqn:Hd.
  - intros ?. by eexists.
  - unfold options_of in Hd. by case_bool_decide.
Qed.

Lemma lookup_nil_Some {A} i (x : A) : @nil A !! i = Some x → False.
Proof. by rewrite lookup_nil. Qed.

Lemma review_duplicate_seen run i changes keys st log keys' st' j c :
  review run i changes keys st = (log, keys', st') →
  log !! j = Some (XDuplicate c) →
  c ∈ commit_ids st ∨ ∃ k x, k < j ∧ log !! k = Some x ∧ processed x = Some c.
Proof.
  revert i keys st log keys' st' j.
  induction changes as [|change changes IH]; intros i keys st log keys' st' j.
  - intros [= <- <- <-] Hj. by apply lookup_nil_Some in Hj.
  - cbn [review]. destruct (step run i change keys st) as [[x k1] st1] eqn:Hstep.
    apply step_spec in Hstep as (_ & _ & Hcase).
    assert (∀ l, l = [x] ∨ (∃ log2 k2 st2, review run (S i) changes k1 st1 = (log2, k2, st2)
                                ∧ l = x :: log2) →
              l !! j = Some (XDuplicate c) →
              c ∈ commit_ids st ∨ ∃ k y, k < j ∧ l !! k = Some y ∧ processed y = Some c) as Hgen.
    { intros l Hl Hj. destruct j as [|j].
      - assert (x = XDuplicate c) as ->.
        { destruct Hl as [-> | (? & ? & ? & _ & ->)]; by injection Hj. }
        destruct Hcase as [(_ & _ & Hd) | (c0 & [=] & _)]. left. by apply Hd.
      - destruct Hl as [-> | (log2 & k2 & st2 & Hrev & ->)]; [by apply lookup_nil_Some in Hj |].
        simpl in Hj. destruct (IH _ _ _ _ _ _ _ Hrev Hj) as [Hin | (k & y & Hk & Hy & Hp)].
        + destruct Hcase as [(_ & Hc & _) | (c0 & Hp & _ & Hc)].
          * left. by rewrite <- Hc.
          * rewrite Hc in Hin. apply elem_of_union in Hin as [->%elem_of_singleton | Hin].
            -- right. exists 0, x. split; [lia | done].
            -- by left.
        + right. exists (S k), y. split; [lia | done]. }
    destruct (continues x).
    + destruct (review run (S i) changes k1 st1) as [[log2 k2] st2] eqn:Hrev.
      intros [= <- <- <-]. apply Hgen. right. by exists log2, k2, st2.
    + intros [= <- <- <-]. apply Hgen. by left.
Qed.

(** The run of a supported repository is the review loop over the
    changes, from the empty seen set. *)
Lemma testable_run repo stdout milestone dry_run keys w :
  repo ∈ ["integrations-core"; "datadog-agent"] →
  testable repo stdout milestone dry_run keys w
  = review (mkRun repo milestone dry_run (options_of repo) "1" (length (diff_data stdout)))
      1 (diff_data stdout) keys (mkState w ∅ []).
Proof.
  intros Hrepo. unfold testable. rewrite bool_decide_eq_true_2 by done. cbn [negb].
  unfold options_of. by case_bool_decide.
Qed.

(** What the lookup of one change adds to the output: the call, and a
    message when the change is skipped for a 403 or a 404. *)
Lemma resolve_out run commit_hash commit_subject st r st' :
  resolve run commit_hash commit_subject st = (r, st') →
  ∃ lookup evs,
    out st' = out st ++ lookup :: evs
    ∧ is_lookup lookup = true
    ∧ Forall no_lookup evs
    ∧ match r with
      | Unresolved x => looked_up x = true
      | Resolved c _ =>
          evs = [] ∧ (lookup = GetPr c ∨ lookup = GetPrFromHash commit_hash (repo run))
      end.
Proof.
  unfold resolve.
  destruct (truthy (parse_pr_number commit_subject)) as [c|].
  - destruct (get_pr _ _) as [api_response w].
    repeat case_bool_decide; try destruct (http_error api_response);
      intros [= <- <-]; simpl; rewrite <- ?(assoc_L (++)); simpl;
      do 2 eexists; (split; [reflexivity |]); (split; [done |]);
      (split; [by repeat constructor |]); auto.
  - destruct (get_pr_from_hash _ _ _) as [api_response w].
    repeat case_bool_decide; try destruct (http_error api_response);
      intros [= <- <-]; simpl; rewrite <- ?(assoc_L (++)); simpl;
      do 2 eexists; (split; [reflexivity |]); (split; [done |]);
      (split; [by repeat constructor |]); auto.
Qed.

Lemma lookups_cons_lookup e evs : is_lookup e = true → lookups (e :: evs) = S (lookups evs).
Proof. intros He. unfold lookups. by rewrite filter_cons_True. Qed.

(** What one iteration adds to the output: one lookup, unless the
    change does not unpack; for a duplicate, the lookup and the message
    that the change is skipped, and nothing else. *)
Lemma step_out run i change keys st x keys' st' :
  step run i change keys st = (x, keys', st') →
  ∃ evs, out st' = out st ++ evs
    ∧ lookups evs = (if looked_up x then 1 else 0)
    ∧ ∀ c, x = XDuplicate c →
        ∃ lookup, evs = [lookup; echo_info ("Already seen PR #" +:+ c +:+ ", skipping it.")]
          ∧ (lookup = GetPr c ∨ ∃ commit_hash, lookup = GetPrFromHash commit_hash (repo run)).
Proof.
  unfold step. destruct change as [|commit_hash [|commit_subject [|? ?]]];
    try (intros [= <- <- <-]; exists []; rewrite app_nil_r; done).
  destruct (resolve _ _ _ _) as [r st1] eqn:Hr.
  pose proof (resolve_spec _ _ _ _ _ _ Hr) as (_ & _ & _ & Hsp).
  apply resolve_out in Hr as (lookup & evs & Ho & Hl & Hev & Hr).
  destruct r as [c pr_data | x1].
  - destruct Hr as [-> Hlookup]. unfold handle. destruct (_ && _).
    + intros [= <- <- <-]. eexists. simpl. rewrite Ho, <- (assoc_L (++)). simpl.
      split; [done |]. split; [by rewrite lookups_cons_lookup |].
      intros c' [= <-]. eexists. split; [done |]. naive_solver.
    + intros E.
      pose proof (process_grows run i commit_subject c pr_data keys (add_commit_id c st1)) as Hg.
      pose proof (process_exits run i commit_subject c pr_data keys (add_commit_id c st1)) as Hx.
      rewrite E in Hg, Hx. simpl in Hg, Hx. apply process_exit_processed in Hx.
      destruct Hg as [_ (evs & Ho' & Hev')]. simpl in Ho'.
      exists (lookup :: evs). rewrite Ho', Ho, <- (assoc_L (++)). simpl.
      split; [done |]. split.
      * rewrite lookups_cons_lookup, lookups_none by done.
        destruct x as [| | | | | | | | | | |[] []]; done.
      * intros c' ->. done.
  - intros [= <- <- <-]. exists (lookup :: evs). split; [done |]. split.
    + by rewrite lookups_cons_lookup, lookups_none, Hr by done.
    + intros c' ->. by destruct (proj2 Hsp c').
Qed.

Lemma continues_looked_up x : continues x = true → looked_up x = true.
Proof. by destruct x as [| | | | | | | | | | |[] []]. Qed.

(** What a run adds to the output: a lookup for each iteration that
    unpacked its change, and, for the iteration [j] that ends as a
    duplicate, its lookup, the one after [j] others, followed at once by
    the message that the change is skipped. *)
Lemma review_out run i changes keys st log keys' st' :
  review run i changes keys st = (log, keys', st') →
  ∃ evs, out st' = out st ++ evs
    ∧ lookups evs = length (filter (λ x, looked_up x = true) log)
    ∧ ∀ j c, log !! j = Some (XDuplicate c) →
        ∃ evs0 lookup evs1,
          evs = evs0 ++ lookup
                  :: echo_info ("Already seen PR #" +:+ c +:+ ", skipping it.") :: evs1
          ∧ (lookup = GetPr c ∨ ∃ commit_hash, lookup = GetPrFromHash commit_hash (repo run))
          ∧ lookups evs0 = j.
Proof.
  revert i keys st log keys' st'.
  induction changes as [|change changes IH]; intros i keys st log keys' st'.
  - intros [= <- <- <-]. exists []. rewrite app_nil_r. split; [done |]. split; [done |].
    by intros j c ?%lookup_nil_Some.
  - cbn [review]. destruct (step run i change keys st) as [[x k1] st1] eqn:Hstep.
    apply step_out in Hstep as (evs1 & Ho1 & Hl1 & Hd1).
    destruct (continues x) eqn:Hx.
    + destruct (review run (S i) changes k1 st1) as [[log2 k2] st2] eqn:Hrev.
      intros [= <- <- <-]. apply IH in Hrev as (evs2 & Ho2 & Hl2 & Hd2).
      exists (evs1 ++ evs2). rewrite Ho2, Ho1, (assoc_L (++)). split; [done |].
      rewrite (continues_looked_up _ Hx) in Hl1. split.
      * rewrite lookups_app, Hl1, Hl2, filter_cons_True by by apply continues_looked_up.
        done.
      * intros [|j] c Hj; simpl in Hj.
        -- injection Hj as ->. destruct (Hd1 c eq_refl) as (lookup & -> & Hlookup).
           exists [], lookup, evs2. done.
        -- destruct (Hd2 j c Hj) as (evs0 & lookup & evs3 & -> & Hlookup & <-).
           exists (evs1 ++ evs0), lookup, evs3. rewrite <- (assoc_L (++)).
           split; [done |]. split; [done |]. rewrite lookups_app, Hl1. done.
    + intros [= <- <- <-]. exists evs1. split; [done |]. split.
      * rewrite Hl1. destruct (looked_up x) eqn:E.
        -- by rewrite filter_cons_True.
        -- rewrite filter_cons_False; [done |]. by rewrite E.
      * intros [|j] c Hj; simpl in Hj; [| by apply lookup_nil_Some in Hj].
        injection Hj as ->. done.
Qed.


(** C2 (amended): in every run each change causes one metadata
    lookup at most, exactly one for each iteration that unpacks its
    change, and a commit id that is not empty gets past the duplicate
    check once at most.  The lookup comes before the duplicate check: a
    change that resolves to an id already in the seen set is looked up
    again, its lookup being the one after those of the [j] iterations
    before it, and only then skipped, with the message as the next
    output; that id was processed exactly once, by an earlier change. *)
Theorem processed_at_most_once repo stdout milestone dry_run keys w log keys' st' commit_id :
  testable repo stdout milestone dry_run keys w = (log, keys', st') →
  commit_id ≠ "" →
  times_processed commit_id log ≤ 1
  ∧ lookups (out st') ≤ length (diff_data stdout)
  ∧ (repo ∈ ["integrations-core"; "datadog-agent"] →
     lookups (out st') = length (filter (λ x, looked_up x = true) log))
  ∧ (∀ j, log !! j = Some (XDuplicate commit_id) →
       times_processed commit_id log = 1
       ∧ (∃ k x, k < j ∧ log !! k = Some x ∧ processed x = Some commit_id)
       ∧ ∃ evs0 lookup evs1,
           out st' = evs0 ++ lookup
                       :: echo_info ("Already seen PR #" +:+ commit_id +:+ ", skipping it.")
                       :: evs1
           ∧ (lookup = GetPr commit_id
              ∨ ∃ commit_hash, lookup = GetPrFromHash commit_hash repo)
           ∧ lookups evs0 = j).
Proof.
  intros Hrun Hc.
  destruct (decide (repo ∈ ["integrations-core"; "datadog-agent"])) as [Hrepo | Hrepo].
  - rewrite testable_run in Hrun by done.
    pose proof (review_spec _ _ _ _ _ _ _ _ Hrun) as (Hlen & Hl & _ & _ & _ & Hcount).
    pose proof (review_out _ _ _ _ _ _ _ _ Hrun) as (evs & Ho & Hlk & Hdup).
    simpl in Ho. destruct (Hcount commit_id Hc) as [_ Hnew].
    specialize (Hnew (not_elem_of_empty _)).
    split; [rewrite Hnew; case_decide; lia |].
    split; [change (lookups (out (mkState w ∅ []))) with 0 in Hl; lia |].
    split; [intros _; by rewrite Ho, Hlk |].
    intros j Hj.
    destruct (review_duplicate_seen _ _ _ _ _ _ _ _ _ _ Hrun Hj) as [Hin | Hbefore];
      [by apply not_elem_of_empty in Hin |].
    split; [| split; [done |]].
    + destruct Hbefore as (k & x & _ & Hk & Hp).
      assert (times_processed commit_id log ≠ 0) as Hpos.
      { unfold times_processed. intros Hz%length_zero_iff_nil.
        assert (x ∈ filter (λ x, processed x = Some commit_id) log) as Hin.
        { apply list_elem_of_filter. split; [done |]. by eapply list_elem_of_lookup_2. }
        rewrite Hz in Hin. by apply elem_of_nil in Hin. }
      rewrite Hnew in *. by case_decide.
    + destruct (Hdup j commit_id Hj) as (evs0 & lookup & evs1 & -> & Hlookup & Hj0).
      exists evs0, lookup, evs1. by rewrite Ho.
  - unfold testable in Hrun. rewrite bool_decide_eq_false_2 in Hrun by done.
    injection Hrun as <- <- <-. split.
    { rewrite times_processed_cons, decide_False by done.
      change (times_processed commit_id []) with 0. lia. }
    split; [change (0 ≤ length (diff_data stdout)); lia |].
    split; [done |]. intros [|j] Hj; [done | by apply lookup_nil_Some in Hj].
Qed.


(** **** What processing shows *)


















(** C10: a record whose commit id is the empty string is never taken
    for a duplicate, whatever the seen set holds and however many such
    records came before: it goes on to the filters, the empty id is
    added to the seen set, and no run has a duplicate exit for the
    empty id. *)
Theorem empty_commit_id_not_deduplicated run i commit_subject pr_data keys st :
  handle run i commit_subject "" pr_data keys st
    = process run i commit_subject "" pr_data keys (add_commit_id "" st)
  ∧ (∀ c, (handle run i commit_subject "" pr_data keys st).1.1 ≠ XDuplicate c)
  ∧ processed (handle run i commit_subject "" pr_data keys st).1.1 = Some ""
  ∧ "" ∈ commit_ids (handle run i commit_subject "" pr_data keys st).2
  ∧ (∀ changes, XDuplicate "" ∉ (review run i changes keys st).1.1).
Proof.
  assert (handle run i commit_subject "" pr_data keys st
          = process run i commit_subject "" pr_data keys (add_commit_id "" st)) as E by done.
  rewrite E. split; [done |].
  pose proof (process_exits run i commit_subject "" pr_data keys (add_commit_id "" st)) as Hx.
  split; [| split; [| split]].
  - intros c Hc. apply process_exit_processed in Hx. by rewrite Hc in Hx.
  - by apply process_exit_processed.
  - rewrite (grows_commit_ids _ _ _ (process_grows _ _ _ _ _ _ _)). simpl. set_solver.
  - intros changes. destruct (review run i changes keys st) as [[log k] s] eqn:Hrev.
    by apply review_spec in Hrev as (_ & _ & _ & _ & ? & _).
Qed.

(** **** The list of changes *)

Lemma linebreak_isspace c : is_linebreak c = true → isspace c = true.
Proof. destruct c as [[] [] [] [] [] [] [] []]; by vm_compute. Qed.

Lemma splitlines_single l : l ≠ "" → no_linebreak l = true → splitlines l = [l].
Proof.
  induction l as [|a l IH]; [done |]. intros _ [Ha Hl]%andb_prop.
  apply negb_true_iff in Ha. cbn [splitlines]. rewrite Ha.
  destruct l as [|b l]; [done |]. by rewrite IH.
Qed.

Lemma splitlines_line l rest :
  no_linebreak l = true → splitlines (l +:+ newline +:+ rest) = l :: splitlines rest.
Proof.
  induction l as [|a l IH]; sapp.
  - intros _. by destruct rest.
  - intros [Ha Hl]%andb_prop. apply negb_true_iff in Ha.
    cbn [splitlines]. rewrite Ha. by rewrite IH.
Qed.

Lemma splitlines_join lines :
  Forall (λ l, l ≠ "" ∧ no_linebreak l = true) lines →
  splitlines (join newline lines) = lines.
Proof.
  induction 1 as [|l lines [Hne Hl] Hrest IH]; [done |].
  destruct lines as [|l' lines]; [by apply splitlines_single |].
  change (join newline (l :: l' :: lines)) with (l +:+ newline +:+ join newline (l' :: lines)).
  by rewrite splitlines_line, IH.
Qed.

Lemma span_app p a b :
  forallb p a = true →
  match b with "" => True | String c _ => p c = false end →
  span p (a +:+ b) = (a, b).
Proof.
  induction a as [|c a IH]; sapp; intros Ha Hb.
  - destruct b as [|c b]; [done |]. simpl. by rewrite Hb.
  - apply andb_prop in Ha as [Hc Ha]. simpl. by rewrite Hc, IH.
Qed.

Lemma forallb_app p a b : forallb p (a +:+ b) = forallb p a && forallb p b.
Proof. induction a as [|c a IH]; sapp; [done |]. simpl. by rewrite IH, andb_assoc. Qed.

(** A line of the log gives back its hash and its subject. *)
Lemma split_ws1_log_line commit :
  well_formed_commit commit → split_ws1 (log_line commit) = [commit.1; commit.2].
Proof.
  destruct commit as [h s]. unfold well_formed_commit, log_line. simpl.
  intros (Hh & Hhs & Hs & _).
  destruct h as [|c h]; [done |]. destruct s as [|d s]; [done |].
  pose proof Hhs as [Hc _]%andb_prop. apply negb_true_iff in Hc.
  unfold split_ws1. sapp. cbn [lstrip_by]. rewrite Hc.
  change (String c (h +:+ String " " (String d s)))
    with (String c h +:+ String " " (String d s)).
  rewrite span_app by done.
  cbn [lstrip_by]. change (isspace " ") with true. cbn iota. by rewrite Hs.
Qed.

Lemma log_line_no_linebreak commit :
  well_formed_commit commit →
  log_line commit ≠ "" ∧ no_linebreak (log_line commit) = true.
Proof.
  destruct commit as [h s]. unfold well_formed_commit, log_line, no_linebreak. simpl.
  intros (Hh & Hhs & _ & Hs). split.
  - by destruct h.
  - rewrite forallb_app. apply andb_true_intro. split.
    + eapply forallb_impl; [| exact Hhs]. intros c Hc. cbn beta in *.
      destruct (is_linebreak c) eqn:E; [| done].
      apply linebreak_isspace in E. by rewrite E in Hc.
    + sapp. simpl. exact Hs.
Qed.

(** C9: [git log] prints the newest commit first, a line a commit;
    the list of changes has the pairs of hash and subject in the
    reverse order, from the oldest to the newest. *)
Theorem diff_data_oldest_first (commits : list (string * string)) :
  Forall well_formed_commit commits →
  diff_data (join newline (log_line <$> commits))
    = (λ commit, [commit.1; commit.2]) <$> reverse commits.
Proof.
  intros Hwf. unfold diff_data.
  rewrite splitlines_join.
  - rewrite <- !fmap_reverse, <- list_fmap_compose.
    apply Forall_fmap_ext. apply Forall_reverse.
    eapply Forall_impl; [exact Hwf |]. intros commit ?. by apply split_ws1_log_line.
  - apply Forall_fmap. eapply Forall_impl; [exact Hwf |].
    intros commit ?. by apply log_line_no_linebreak.
Qed.

End Facts.

Import Script.

Lemma documentation_filter_witness :
  let run := mkRun "integrations-core" None false options_integrations_core "1" 1 in
  (process run 1 "Update docs (#10)" "10"
     (json (pr "10" ["documentation"; "changelog/no-changelog"])) [] (start (mkAnswers [] [] []))).1.1
    = XDocumentation "10"
  ∧ (process run 1 "Fix docs (#11)" "11"
       (json (pr "11" ["documentation"; "changelog/Fixed"])) [] (start (mkAnswers [] [] []))).1.1
    ≠ XDocumentation "11".
Proof.
  intros run. split.
  - rewrite (proj1 (documentation_filter run 1 "Update docs (#10)" "10"
               (json (pr "10" ["documentation"; "changelog/no-changelog"])) []
               (start (mkAnswers [] [] [])))).
    + reflexivity.
    + exists "documentation". split; [by left | reflexivity].
    + intros label type Hin Hl. unfold changelog_label in Hl. simpl in Hin.
      apply elem_of_cons in Hin as [-> | Hin]; [discriminate Hl |].
      apply elem_of_cons in Hin as [-> | Hin].
      { change "changelog/no-changelog" with ("changelog/" +:+ "no-changelog") in Hl.
        symmetry. by apply (inj (String.app "changelog/")) in Hl. }
      by apply elem_of_nil in Hin.
  - apply (proj2 (documentation_filter run 1 "Fix docs (#11)" "11"
               (json (pr "11" ["documentation"; "changelog/Fixed"])) []
               (start (mkAnswers [] [] [])))).
    exists "changelog/Fixed", "Fixed". split; [right; by left |]. split; [reflexivity | discriminate].
Defined.

Lemma prompt_choice_witness :
  let run := mkRun "integrations-core" None true options_integrations_core "1" 1 in
  let pr := mkShown "10" [] "" "url" "Title" "dev" (JStr "Body") "(1 of 1) " in
  let st := start (mkAnswers [] [] []) in
  let st1 := (display run pr "" st).2 in
  (∃ team, head (options run) = Some (default_option run, team)
     ∧ prompt_loop run pr true "" [String "013" ""] st
       = (XCard "10" team, [],
          create_trello_card [team] "Title" "url" (JStr "Body") true (emit (echo_info team) st1)))
  ∧ (prompt_loop run pr true "" ["x"; "q"] st
       = prompt_loop run pr true (invalid_choice "x") ["q"] (emit (echo_info "x") st1)
     ∧ ∃ st2, display run pr (invalid_choice "x") (emit (echo_info "x") st1) = (true, st2)
         ∧ echo_warning (invalid_choice "x") ∈ out st2)
  ∧ prompt_loop run pr true "" [NUL; "q"] st = prompt_loop run pr false "" ["q"] st1.
Proof.
  intros run pr st st1. split; [| split].
  - apply (proj1 (prompt_choice run pr "" (String "013" "") [] st st1 eq_refl));
      reflexivity.
  - apply (proj1 (proj2 (prompt_choice run pr "" "x" ["q"] st st1 eq_refl)) "x");
      (reflexivity || discriminate).
  - apply (proj2 (proj2 (prompt_choice run pr "" NUL ["q"] st st1 eq_refl))).
    reflexivity.
Defined.

(** A space, a tab and a null byte are not keys of the menu, and none
    of them shows an error: the blank keys stand for the default key
    and the card goes to its team; the null byte is dropped, the key
    after it is read and the pull request is displayed once. *)
Lemma blank_and_null_keys_show_no_error :
  let run := mkRun "integrations-core" None true options_integrations_core "1" 1 in
  let pr := mkShown "10" [] "" "url" "Title" "dev" (JStr "Body") "(1 of 1) " in
  let st := start (mkAnswers [] [] []) in
  let tab := String "009" "" in
  let warnings := λ r : Exit * list string * State,
    length (filter (λ e, is_warning e = true) (out r.2)) in
  let prompts := λ r : Exit * list string * State,
    length (filter (λ e, is_prompt e = true) (out r.2)) in
  lookup_option " " (options run) = None
  ∧ lookup_option tab (options run) = None
  ∧ lookup_option NUL (options run) = None
  ∧ (prompt_loop run pr true "" [" "] st).1.1 = XCard "10" "Integrations"
  ∧ warnings (prompt_loop run pr true "" [" "] st) = 0
  ∧ (prompt_loop run pr true "" [tab] st).1.1 = XCard "10" "Integrations"
  ∧ warnings (prompt_loop run pr true "" [tab] st) = 0
  ∧ (prompt_loop run pr true "" [NUL; "s"] st).1.1 = XSkipped "10"
  ∧ warnings (prompt_loop run pr true "" [NUL; "s"] st) = 0
  ∧ prompts (prompt_loop run pr true "" [NUL; "s"] st) = 1.
Proof. by vm_compute. Qed.

(** C1, at three rate-limited answers: the dispatcher warns and waits
    three times and returns without reporting a failure. *)
Theorem rate_limited_thrice_not_reported :
  let st := create_trello_card ["Core"] "Title" "url" (JStr "Body") false
              (start (mkAnswers [] [] [rate_limited_card; rate_limited_card; rate_limited_card])) in
  let card := CreateCard "Core" "Title" ("Pull request: url" +:+ newline +:+ newline +:+ "Body") in
  out st =
    [card; echo_warning "Attempt 1 of 3: A rate limit in effect, retrying in 10 seconds..."; Sleep 10;
     card; echo_warning "Attempt 2 of 3: A rate limit in effect, retrying in 10 seconds..."; Sleep 10;
     card; echo_warning "Attempt 3 of 3: A rate limit in effect, retrying in 10 seconds..."; Sleep 10]
  ∧ Forall (λ e, is_failure e = false) (out st).
Proof. split; [reflexivity |]. vm_compute. repeat constructor. Qed.

(** The metadata of pull request 10 is fetched for each of the two
    changes that name it: the second lookup is made although the id is
    in the seen set, and only then is the change skipped. *)
Lemma metadata_fetched_for_each_change :
  let r := testable "integrations-core" two_fixes None true [] routed_twice in
  r.1.1 = [XAutoRouted "10" ["Containers"]; XDuplicate "10"]
  ∧ fetches "10" (out r.2) = 2
  ∧ ¬ fetches "10" (out r.2) ≤ 1.
Proof.
  assert (let r := testable "integrations-core" two_fixes None true [] routed_twice in
          r.1.1 = [XAutoRouted "10" ["Containers"]; XDuplicate "10"]
          ∧ fetches "10" (out r.2) = 2) as [E1 E2] by (by vm_compute).
  intros r. split; [exact E1 |]. split; [exact E2 |]. fold r in E2. rewrite E2. lia.
Qed.

Lemma processed_at_most_once_witness :
  let r := testable "integrations-core" two_fixes None true [] routed_twice in
  r.1.1 !! 1 = Some (XDuplicate "10")
  ∧ times_processed "10" r.1.1 = 1
  ∧ lookups (out r.2) = 2
  ∧ (∃ k x, k < 1 ∧ r.1.1 !! k = Some x ∧ processed x = Some "10")
  ∧ ∃ evs0 lookup evs1,
      out r.2 = evs0 ++ lookup :: echo_info "Already seen PR #10, skipping it." :: evs1
      ∧ (lookup = GetPr "10"
         ∨ ∃ commit_hash, lookup = GetPrFromHash commit_hash "integrations-core")
      ∧ lookups evs0 = 1.
Proof.
  intros r.
  assert (testable "integrations-core" two_fixes None true [] routed_twice
          = (r.1.1, r.1.2, r.2)) as Hrun.
  { subst r. by destruct (testable _ _ _ _ _ _) as [[? ?] ?]. }
  assert ("10" ≠ "") as Hc by discriminate.
  destruct (processed_at_most_once (H := scripted) "integrations-core" two_fixes None true []
              routed_twice r.1.1 r.1.2 r.2 "10" Hrun Hc) as (_ & _ & Hl & Hdup).
  assert (r.1.1 !! 1 = Some (XDuplicate "10")) as Hj by reflexivity.
  destruct (Hdup 1 Hj) as (Hone & Hbefore & Hout).
  split; [exact Hj |]. split; [exact Hone |]. split; [| split; [exact Hbefore | exact Hout]].
  rewrite Hl by by left. reflexivity.
Defined.



Lemma auto_route_witness :
  let run := mkRun "integrations-core" None false options_integrations_core "1" 1 in
  let pr_data := json (pr "10" ["team/containers"; "bugfix"]) in
  ∃ teams st',
    handle run 1 "Fix (#10)" "10" pr_data ["q"] (start (mkAnswers [] [] []))
      = (XAutoRouted "10" teams, ["q"], st')
    ∧ (∀ team, team ∈ teams
         ↔ ∃ label, label ∈ get_pr_labels pr_data ∧ label_team_map !! label = Some team)
    ∧ st' = create_trello_card teams "Change 10"
              "https://github.com/DataDog/integrations-core/pull/10" (JStr "Body") false
              (add_commit_id "10" (start (mkAnswers [] [] [])))
    ∧ (∃ evs, out st' = out (start (mkAnswers [] [] [])) ++ evs
              ∧ Forall (λ e, is_prompt e = false) evs)
    ∧ (false = false →
       ∀ team, team ∈ teams → ∃ name body, CreateCard team name body ∈ out st').
Proof.
  intros run pr_data.
  apply (auto_route (H := scripted) run 1 "Fix (#10)" "10" pr_data ["q"] (start (mkAnswers [] [] []))).
  - right. apply not_elem_of_empty.
  - left. intros label Hin Hdoc. unfold documentation_label in Hdoc. simpl in Hin.
    apply elem_of_cons in Hin as [-> | Hin]; [discriminate Hdoc |].
    apply elem_of_cons in Hin as [-> | Hin]; [discriminate Hdoc |].
    by apply elem_of_nil in Hin.
  - by left.
  - exists "team/containers", "Containers". split; [by left | by vm_compute].
Defined.

Lemma diff_data_oldest_first_witness :
  diff_data ("b2 Fixes #10" +:+ newline +:+ "a1 Add the check")
    = [["a1"; "Add the check"]; ["b2"; "Fixes #10"]].
Proof.
  apply (diff_data_oldest_first [("b2", "Fixes #10"); ("a1", "Add the check")]).
  repeat constructor; discriminate.
Defined.

End ReleaseFacts.

(** ** More on the version reference normaliser *)

Module VersionMore.
Import PyStr Version StrFacts VersionFacts.

(** X2: the error about an ambiguous minor version is raised for the
    values with exactly two components that are not in the ignore list,
    and for no other value. *)
Theorem ambiguous_iff_two_components (value : string) (ignore : list string) :
  validate_version value ignore = BadParameter (ambiguous_message value)
  ↔ (value ∉ ignore) ∧ length (split "." value) = 2.
Proof.
  unfold validate_version. case_bool_decide as Hi; [split; [done | by intros [? _]] |].
  case_bool_decide as Hl; [done |].
  split; [| by intros [_ ?]].
  assert (semver_format_message ≠ ambiguous_message value) as Hne by done.
  destruct (_ && _); unfold parse_version; destruct (parse_version_info _);
    intros [=]; by destruct Hne.
Qed.

End VersionMore.

(** ** More on the card dispatcher *)

Module DispatcherFacts.
Import PyStr Release Measures StrFacts ReleaseFacts.

Section Facts.

Context `{Collaborators}.

Lemma calls_app a b : calls (a ++ b) = calls a + calls b.
Proof. unfold calls. by rewrite filter_app, length_app. Qed.

Lemma failures_app a b : failures (a ++ b) = failures a + failures b.
Proof. unfold failures. by rewrite filter_app, length_app. Qed.

Lemma waited_app a b : waited (a ++ b) = (waited a + waited b)%N.
Proof.
  induction a as [|e a IH]; [done |].
  destruct e; simpl; rewrite ?IH; lia.
Qed.

Lemma out_emit e (st : State) : out (emit e st) = out st ++ [e].
Proof. done. Qed.

Lemma out_set_world w (st : State) : out (set_world w st) = out st.
Proof. done. Qed.

#[local] Arguments retry_message : simpl never.

Ltac attempts_cases :=
  cbn [attempts seq];
  repeat (
    match goal with
    | |- context [create_card ?a ?b ?c ?w] =>
        let r := fresh "r" in let w' := fresh "w" in
        destruct (create_card a b c w) as [r w'] eqn:?;
        destruct (rate_limited r) eqn:?;
        [| destruct (truthy (error r)) as [?|] eqn:?]
    end; simpl);
  rewrite <- ?(assoc_L (++)); simpl.

(** X3: the three attempts for one team make between one and three
    calls to the Trello client and wait 30 seconds at most; a failure
    is reported at most once, only after three calls, and as the last
    thing done for the team. *)
Theorem attempts_bounded team pr_title body st :
  ∃ evs, out (attempts team pr_title body (seq 0 3) st) = out st ++ evs
    ∧ 1 ≤ calls evs ≤ 3
    ∧ (waited evs ≤ 30)%N
    ∧ failures evs ≤ 1
    ∧ (failures evs = 1 →
       calls evs = 3 ∧ ∃ text, last evs = Some (echo_failure text)).
Proof.
  attempts_cases;
    (eexists; split; [reflexivity |]; vm_compute;
     repeat split; try lia; try discriminate; try (intros [=]); eauto).
Qed.


Lemma attempts_measures team pr_title body st :
  ∃ evs, out (attempts team pr_title body (seq 0 3) st) = out st ++ evs
    ∧ 1 ≤ calls evs ≤ 3 ∧ (waited evs ≤ 30)%N ∧ failures evs ≤ 1.
Proof.
  attempts_cases;
    (eexists; split; [reflexivity |]; vm_compute; repeat split; try lia; discriminate).
Qed.

(** X4: without [--dry-run] the dispatcher calls the Trello client at
    least once and at most three times for each team, waits 30 seconds
    a team at most, and reports at most one failure a team. *)
Theorem dispatch_bounded teams pr_title pr_url pr_body st :
  ∃ evs,
    out (create_trello_card teams pr_title pr_url pr_body false st) = out st ++ evs
    ∧ length teams ≤ calls evs ≤ 3 * length teams
    ∧ (waited evs ≤ 30 * N.of_nat (length teams))%N
    ∧ failures evs ≤ length teams.
Proof.
  unfold create_trello_card. generalize ("Pull request: " +:+ pr_url +:+ newline +:+ newline
                                         +:+ format_json_str pr_body) as body.
  intros body. revert st. induction teams as [|team teams IH]; intros st.
  - exists []. rewrite app_nil_r. repeat split; done.
  - cbn [teams_loop].
    destruct (attempts_measures team pr_title body st) as (e1 & Ho1 & Hc1 & Hw1 & Hf1).
    destruct (IH (attempts team pr_title body (seq 0 3) st)) as (e2 & Ho2 & Hc2 & Hw2 & Hf2).
    exists (e1 ++ e2). rewrite Ho2, Ho1, (assoc_L (++)).
    rewrite calls_app, waited_app, failures_app. cbn [length].
    repeat split; lia.
Qed.

(** X5: with [--dry-run] the dispatcher only prints, for each team in
    turn, the two lines of the card it would create: no call to the
    Trello client, no wait, and the outside world is left as it was. *)
Theorem dispatch_dry_run teams pr_title pr_url pr_body st :
  create_trello_card teams pr_title pr_url pr_body true st
    = mkState (world st) (commit_ids st) (out st ++ concat (dry_lines pr_title <$> teams)).
Proof.
  unfold create_trello_card. generalize ("Pull request: " +:+ pr_url +:+ newline +:+ newline
                                         +:+ format_json_str pr_body) as body.
  intros body. revert st. induction teams as [|team teams IH]; intros st.
  - simpl. rewrite app_nil_r. by destruct st.
  - cbn [teams_loop]. rewrite IH. simpl. by rewrite <- !(assoc_L (++)).
Qed.

(** X6: dispatching to a list of teams is dispatching to its first
    part and then, from the state reached, to the rest: what happened to
    the cards of the teams before does not stop the teams after. *)
Theorem dispatch_app teams1 teams2 pr_title pr_url pr_body dry_run st :
  create_trello_card (teams1 ++ teams2) pr_title pr_url pr_body dry_run st
    = create_trello_card teams2 pr_title pr_url pr_body dry_run
        (create_trello_card teams1 pr_title pr_url pr_body dry_run st).
Proof. unfold create_trello_card. apply teams_loop_app. Qed.

(** X7: the dispatcher never fetches pull request metadata, never
    shows the menu prompt and leaves the set of seen commit ids as it
    is; it only adds to the output. *)
Theorem dispatch_confined teams pr_title pr_url pr_body dry_run st :
  let st' := create_trello_card teams pr_title pr_url pr_body dry_run st in
  commit_ids st' = commit_ids st
  ∧ ∃ evs, out st' = out st ++ evs
      ∧ Forall (λ e, is_lookup e = false ∧ is_prompt e = false) evs.
Proof. apply create_trello_card_grows. Qed.

(** X8: when the first two attempts are rate limited and the third
    creates the card, the dispatcher warns and waits 10 seconds twice,
    then reports the card; no failure is reported. *)
Theorem rate_limited_twice_then_created team pr_title body st r1 w1 r2 w2 r3 w3 :
  create_card team pr_title body (world st) = (r1, w1) → rate_limited r1 = true →
  create_card team pr_title body w1 = (r2, w2) → rate_limited r2 = true →
  create_card team pr_title body w2 = (r3, w3) →
  rate_limited r3 = false → truthy (error r3) = None →
  let st' := attempts team pr_title body (seq 0 3) st in
  let call := CreateCard team pr_title body in
  world st' = w3
  ∧ out st' = out st ++
      [call; echo_warning "Attempt 1 of 3: A rate limit in effect, retrying in 10 seconds..."; Sleep 10;
       call; echo_warning "Attempt 2 of 3: A rate limit in effect, retrying in 10 seconds..."; Sleep 10;
       call; Echo Success ("Created card for team " +:+ team +:+ ": ") false "";
       echo_info (card_url r3)].
Proof.
  intros E1 R1 E2 R2 E3 R3 T3. cbn [attempts seq].
  rewrite E1, R1. simpl. rewrite E2, R2. simpl. rewrite E3, R3, T3. simpl.
  split; [done |]. by rewrite <- !(assoc_L (++)).
Qed.

(** X9: when the three attempts fail with errors that are not rate
    limits, the dispatcher waits 2 seconds after the first and after the
    second attempt only, and reports the third error as a failure. *)
Theorem three_errors_reported team pr_title body st r1 w1 e1 r2 w2 e2 r3 w3 e3 :
  create_card team pr_title body (world st) = (r1, w1) →
  rate_limited r1 = false → truthy (error r1) = Some e1 →
  create_card team pr_title body w1 = (r2, w2) →
  rate_limited r2 = false → truthy (error r2) = Some e2 →
  create_card team pr_title body w2 = (r3, w3) →
  rate_limited r3 = false → truthy (error r3) = Some e3 →
  let st' := attempts team pr_title body (seq 0 3) st in
  let call := CreateCard team pr_title body in
  world st' = w3
  ∧ out st' = out st ++
      [call; echo_warning "Attempt 1 of 3: An error has occurred, retrying in 2 seconds..."; Sleep 2;
       call; echo_warning "Attempt 2 of 3: An error has occurred, retrying in 2 seconds..."; Sleep 2;
       call; echo_failure ("Error: " +:+ e3)].
Proof.
  intros E1 R1 T1 E2 R2 T2 E3 R3 T3. cbn [attempts seq].
  rewrite E1, R1, T1. simpl. rewrite E2, R2, T2. simpl. rewrite E3, R3, T3. simpl.
  split; [done |]. by rewrite <- !(assoc_L (++)).
Qed.

End Facts.

Import Script.

Lemma rate_limited_twice_then_created_witness :
  let st := start (mkAnswers [] [] [rate_limited_card; rate_limited_card]) in
  let st' := attempts "Core" "Title" "Body" (seq 0 3) st in
  let call := CreateCard "Core" "Title" "Body" in
  world st' = mkAnswers [] [] []
  ∧ out st' = out st ++
      [call; echo_warning "Attempt 1 of 3: A rate limit in effect, retrying in 10 seconds..."; Sleep 10;
       call; echo_warning "Attempt 2 of 3: A rate limit in effect, retrying in 10 seconds..."; Sleep 10;
       call; Echo Success ("Created card for team " +:+ "Core" +:+ ": ") false "";
       echo_info "https://trello.com/c/1"].
Proof.
  intros st.
  apply (rate_limited_twice_then_created (H := scripted) "Core" "Title" "Body" st
           rate_limited_card (mkAnswers [] [] [rate_limited_card])
           rate_limited_card (mkAnswers [] [] [])
           (mkCardResult false None "https://trello.com/c/1") (mkAnswers [] [] []));
    reflexivity.
Defined.

Lemma three_errors_reported_witness :
  let st := start (mkAnswers [] [] [failed_card; failed_card; failed_card]) in
  let st' := attempts "Core" "Title" "Body" (seq 0 3) st in
  let call := CreateCard "Core" "Title" "Body" in
  world st' = mkAnswers [] [] []
  ∧ out st' = out st ++
      [call; echo_warning "Attempt 1 of 3: An error has occurred, retrying in 2 seconds..."; Sleep 2;
       call; echo_warning "Attempt 2 of 3: An error has occurred, retrying in 2 seconds..."; Sleep 2;
       call; echo_failure ("Error: " +:+ "boom")].
Proof.
  intros st.
  apply (three_errors_reported (H := scripted) "Core" "Title" "Body" st
           failed_card (mkAnswers [] [] [failed_card; failed_card]) "boom"
           failed_card (mkAnswers [] [] [failed_card]) "boom"
           failed_card (mkAnswers [] [] []) "boom");
    reflexivity.
Defined.

End DispatcherFacts.

(** ** More on the review loop *)

Module ReviewFacts.
Import PyStr Release Measures StrFacts ReleaseFacts.

Section Facts.

Context `{Collaborators}.

Ltac grow :=
  repeat first
    [ apply grows_refl
    | (eapply grows_trans; [| apply grows_emit; done])
    | (eapply grows_trans; [| apply grows_set_world]) ].

(** X10: the review loop examines the changes in order and stops at
    the first iteration that does not continue (quit, abort, exception,
    or a prompt left without a key): such an exit is the last of the
    log, and when the log is shorter than the list of changes its last
    exit is one of these. *)
Theorem review_stops_at_first_stop run i changes keys st log keys' st' :
  review run i changes keys st = (log, keys', st') →
  length log ≤ length changes
  ∧ (∀ j x, log !! j = Some x → continues x = false → S j = length log)
  ∧ (length log < length changes → ∃ x, last log = Some x ∧ continues x = false).
Proof.
  revert i keys st log keys' st'.
  induction changes as [|change changes IH]; intros i keys st log keys' st'.
  - intros [= <- <- <-]. split; [done |]. split; [by intros ?? ?%lookup_nil_Some | simpl; lia].
  - cbn [review]. destruct (step run i change keys st) as [[x k1] st1].
    destruct (continues x) eqn:Hx.
    + destruct (review run (S i) changes k1 st1) as [[log2 k2] st2] eqn:Hrev.
      intros [= <- <- <-]. apply IH in Hrev as (Hlen & Hstop & Hshort).
      split; [simpl; lia |]. split.
      * intros [|j] y Hj Hy; simpl in Hj.
        -- injection Hj as <-. congruence.
        -- simpl. f_equal. by eapply Hstop.
      * intros Hlt. simpl in Hlt. destruct Hshort as (y & Hy & Hc); [lia |].
        exists y. split; [| done]. destruct log2; [done |]. by rewrite last_cons, Hy.
    + intros [= <- <- <-]. split; [simpl; lia |]. split.
      * intros [|j] y Hj Hy; simpl in Hj; [done |]. by apply lookup_nil_Some in Hj.
      * intros _. by exists x.
Qed.

Lemma prompt_loop_keys run pr fresh choice_error keys st :
  (prompt_loop run pr fresh choice_error keys st).1.2 `suffix_of` keys.
Proof.
  revert fresh choice_error st.
  induction keys as [|key keys IH]; intros fresh choice_error st; simpl.
  - by destruct (if fresh then _ else _) as [[] st1].
  - destruct (if fresh then _ else _) as [[] st1]; simpl; [| done].
    case_bool_decide; [by apply suffix_cons_r |].
    destruct (lookup_option _ _); [| by apply suffix_cons_r].
    repeat case_bool_decide; simpl; by apply suffix_cons_r.
Qed.

Lemma process_keys run i commit_subject commit_id pr_data keys st :
  (process run i commit_subject commit_id pr_data keys st).1.2 `suffix_of` keys.
Proof.
  unfold process. destruct (label_flags _ _ _) as [[d n]|]; [| done].
  destruct (d && n); [done |]. destruct (_ && _); [done |].
  case_bool_decide; [done |]. apply prompt_loop_keys.
Qed.

Lemma step_keys run i change keys st :
  (step run i change keys st).1.2 `suffix_of` keys.
Proof.
  unfold step. destruct change as [|commit_hash [|commit_subject [|? ?]]]; try done.
  destruct (resolve _ _ _ _) as [[c pr_data | x] st1]; [| done].
  unfold handle. destruct (_ && _); [done |]. apply process_keys.
Qed.

(** X11: the keys left after a run are an end part of the keys given:
    keys are only taken from the front, in order, and none is added. *)
Theorem review_keys_suffix run i changes keys st :
  (review run i changes keys st).1.2 `suffix_of` keys.
Proof.
  revert i keys st. induction changes as [|change changes IH]; intros i keys st; [done |].
  cbn [review]. pose proof (step_keys run i change keys st) as Hs.
  destruct (step run i change keys st) as [[x k1] st1]. simpl in Hs.
  destruct (continues x); [| done].
  specialize (IH (S i) k1 st1).
  destruct (review run (S i) changes k1 st1) as [[log2 k2] st2]. simpl in *.
  by etrans.
Qed.

(** X12: in a run of the command a change is skipped as a duplicate
    only when an earlier change of the same run got past the duplicate
    check with the same commit id. *)
Theorem duplicate_follows_processed repo stdout milestone dry_run keys w log keys' st' j c :
  testable repo stdout milestone dry_run keys w = (log, keys', st') →
  log !! j = Some (XDuplicate c) →
  ∃ k x, k < j ∧ log !! k = Some x ∧ processed x = Some c.
Proof.
  intros Hrun Hj.
  destruct (decide (repo ∈ ["integrations-core"; "datadog-agent"])) as [Hrepo | Hrepo].
  - apply testable_review in Hrun as [run Hrev]; [| done].
    destruct (review_duplicate_seen _ _ _ _ _ _ _ _ _ _ Hrev Hj) as [Hin | ?]; [| done].
    simpl in Hin. by apply not_elem_of_empty in Hin.
  - unfold testable in Hrun. rewrite bool_decide_eq_false_2 in Hrun by done.
    injection Hrun as <- <- <-. destruct j; [done | by apply lookup_nil_Some in Hj].
Qed.

(** X13: after a run of the command the set of seen commit ids holds,
    among the ids that are not empty, exactly those that got past the
    duplicate check, each of them once. *)
Theorem seen_iff_processed repo stdout milestone dry_run keys w log keys' st' c :
  testable repo stdout milestone dry_run keys w = (log, keys', st') →
  c ≠ "" →
  c ∈ commit_ids st' ↔ times_processed c log = 1.
Proof.
  intros Hrun Hc.
  destruct (decide (repo ∈ ["integrations-core"; "datadog-agent"])) as [Hrepo | Hrepo].
  - apply testable_review in Hrun as [run Hrev]; [| done].
    apply review_spec in Hrev as (_ & _ & _ & _ & _ & Hcount).
    destruct (Hcount c Hc) as [_ Hnew]. rewrite Hnew by (simpl; apply not_elem_of_empty).
    case_decide; split; done.
  - unfold testable in Hrun. rewrite bool_decide_eq_false_2 in Hrun by done.
    injection Hrun as <- <- <-. simpl. split; [by intros ?%not_elem_of_empty |].
    rewrite times_processed_cons, decide_False by done. done.
Qed.


(** **** A dry run *)

Lemma quiet_emit e (st : State) : quiet e → grows quiet st (emit e st).
Proof. apply grows_emit. Qed.

Lemma teams_loop_dry_quiet teams pr_title body st :
  grows quiet st (teams_loop teams pr_title body true st).
Proof.
  revert st. induction teams as [|team teams IH]; intros st; cbn [teams_loop].
  - apply grows_refl.
  - eapply grows_trans; [| apply IH]. grow.
Qed.

Lemma display_quiet run pr choice_error st :
  grows quiet st (display run pr choice_error st).2.
Proof.
  unfold display. destruct (pr_body pr); simpl.
  - case_bool_decide; grow.
  - repeat case_bool_decide; grow.
Qed.

Lemma prompt_loop_dry_quiet run pr fresh choice_error keys st :
  dry_run run = true →
  grows quiet st (prompt_loop run pr fresh choice_error keys st).2.
Proof.
  intros Hdry. revert fresh choice_error st.
  induction keys as [|key keys IH]; intros fresh choice_error st; simpl.
  - assert (grows quiet st
              (if fresh then display run pr choice_error st else (true, st)).2) as Hd.
    { destruct fresh; [apply display_quiet | apply grows_refl]. }
    destruct (if fresh then _ else _) as [shown st1]. by destruct shown.
  - assert (grows quiet st
              (if fresh then display run pr choice_error st else (true, st)).2) as Hd.
    { destruct fresh; [apply display_quiet | apply grows_refl]. }
    destruct (if fresh then _ else _) as [shown st1]. simpl in Hd.
    destruct shown; simpl; [| done].
    case_bool_decide.
    { eapply grows_trans; [done | apply IH]. }
    destruct (lookup_option _ _) as [value|].
    + repeat case_bool_decide; simpl.
      * eapply grows_trans; [done |]. grow.
      * eapply grows_trans; [done |]. grow.
      * eapply grows_trans; [done |]. rewrite Hdry.
        eapply grows_trans; [| apply teams_loop_dry_quiet]. grow.
    + eapply grows_trans; [done |]. eapply grows_trans; [| apply IH]. grow.
Qed.

Lemma process_dry_quiet run i commit_subject commit_id pr_data keys st :
  dry_run run = true →
  grows quiet st (process run i commit_subject commit_id pr_data keys st).2.
Proof.
  intros Hdry. unfold process. destruct (label_flags _ _ _) as [[d n]|]; [| apply grows_refl].
  destruct (d && n); [simpl; grow |].
  destruct (_ && _); [simpl; grow |].
  case_bool_decide; simpl.
  - rewrite Hdry. apply teams_loop_dry_quiet.
  - by apply prompt_loop_dry_quiet.
Qed.

Lemma step_dry_quiet run i change keys st :
  dry_run run = true → quietly st (step run i change keys st).2.
Proof.
  intros Hdry.
  assert (∀ st0 st1 : State, grows quiet st0 st1 → quietly st0 st1) as Hg by by intros ?? [_ ?].
  assert (∀ st0 c, quietly st0 (add_commit_id c st0)) as Hadd.
  { intros. exists []. by rewrite app_nil_r. }
  unfold step. destruct change as [|commit_hash [|commit_subject [|? ?]]];
    try (apply Hg, grows_refl).
  assert (grows quiet st (resolve run commit_hash commit_subject st).2) as Hr.
  { unfold resolve. destruct (truthy _).
    - destruct (get_pr _ _). repeat case_bool_decide; try destruct (http_error _); simpl; grow.
    - destruct (get_pr_from_hash _ _ _).
      repeat case_bool_decide; try destruct (http_error _); simpl; grow. }
  destruct (resolve _ _ _ _) as [[c pr_data | x] st1]; simpl in Hr; [| by apply Hg].
  unfold handle. destruct (_ && _).
  - apply Hg. eapply grows_trans; [done |]. simpl. grow.
  - pose proof (process_dry_quiet run i commit_subject c pr_data keys (add_commit_id c st1) Hdry)
      as [_ (e2 & Ho2 & Hq2)].
    destruct Hr as [_ (e1 & Ho1 & Hq1)].
    exists (e1 ++ e2). rewrite Ho2. simpl. rewrite Ho1, (assoc_L (++)).
    split; [done | by apply Forall_app].
Qed.

Lemma review_dry_quiet run i changes keys st :
  dry_run run = true → quietly st (review run i changes keys st).2.
Proof.
  intros Hdry. revert i keys st.
  induction changes as [|change changes IH]; intros i keys st.
  - exists []. by rewrite app_nil_r.
  - cbn [review]. pose proof (step_dry_quiet run i change keys st Hdry) as (e1 & Ho1 & Hq1).
    destruct (step run i change keys st) as [[x k1] st1]. simpl in Ho1.
    destruct (continues x); [| by exists e1].
    destruct (IH (S i) k1 st1) as (e2 & Ho2 & Hq2).
    destruct (review run (S i) changes k1 st1) as [[log2 k2] st2]. simpl in *.
    exists (e1 ++ e2). rewrite Ho2, Ho1, (assoc_L (++)). split; [done | by apply Forall_app].
Qed.

(** X14: with [--dry-run] a whole run of the command makes no call to
    the Trello client and never waits, whatever the operator types. *)
Theorem dry_run_makes_no_call repo stdout milestone keys w :
  Forall quiet (out (testable repo stdout milestone true keys w).2).
Proof.
  unfold testable. destruct (negb _); [by constructor |].
  destruct (get_next _) as [d|]; [| by constructor].
  match goal with |- context [review ?r ?i ?c ?k ?s] =>
    destruct (review_dry_quiet r i c k s eq_refl) as (evs & -> & Hq) end.
  done.
Qed.


(** **** Lookups that fail *)

(** X15: when the lookup by pull request number does not find the
    pull request, the change is neither processed nor recorded as seen,
    no key is read, and the run goes on to the next change only for the
    statuses 403 and 404; 401 and the other 4xx and 5xx statuses end
    the run. *)
Theorem failed_lookup_by_number run i commit_hash commit_subject c keys st r w :
  truthy (parse_pr_number commit_subject) = Some c →
  get_pr c (world st) = (r, w) →
  ¬ found r →
  let '(x, keys', st') := step run i [commit_hash; commit_subject] keys st in
  processed x = None ∧ keys' = keys ∧ commit_ids st' = commit_ids st ∧ world st' = w
  ∧ (continues x = true ↔ status_code r = 403%N ∨ status_code r = 404%N)
  ∧ (status_code r = 401%N → x = XAbort access_denied).
Proof.
  intros Hp Hr Hnf. unfold step, resolve. rewrite Hp, Hr.
  destruct (decide (status_code r = 401%N)) as [E1 | E1].
  { rewrite bool_decide_eq_true_2 by done. simpl. repeat split; try done.
    rewrite E1. by intros [? | ?]. }
  rewrite (bool_decide_eq_false_2 (status_code r = 401%N)) by done.
  destruct (decide (status_code r = 403%N)) as [E3 | E3].
  { rewrite bool_decide_eq_true_2 by done. simpl. repeat split; try done. by left. }
  rewrite (bool_decide_eq_false_2 (status_code r = 403%N)) by done.
  destruct (decide (status_code r = 404%N)) as [E4 | E4].
  { rewrite bool_decide_eq_true_2 by done. simpl. repeat split; try done. by right. }
  rewrite (bool_decide_eq_false_2 (status_code r = 404%N)) by done.
  destruct (http_error r) eqn:He.
  - simpl. repeat split; try done. by intros [? | ?].
  - destruct Hnf. by unfold found.
Qed.

(** X16: in the lookup by commit hash the status 404 is not a skip:
    like the other 4xx and 5xx statuses except 401 and 403 it ends the
    run with the HTTP error; only 403 lets the run go on. *)
Theorem failed_lookup_by_hash run i commit_hash commit_subject keys st r w :
  truthy (parse_pr_number commit_subject) = None →
  get_pr_from_hash commit_hash (repo run) (world st) = (r, w) →
  status_code r ≠ 401%N → http_error r = true →
  let '(x, keys', st') := step run i [commit_hash; commit_subject] keys st in
  keys' = keys ∧ commit_ids st' = commit_ids st
  ∧ x = (if bool_decide (status_code r = 403%N) then XForbidden else XRaise HTTPError None).
Proof.
  intros Hp Hr H401 He. unfold step, resolve. rewrite Hp, Hr.
  rewrite (bool_decide_eq_false_2 (status_code r = 401%N)) by done.
  case_bool_decide; [done |]. by rewrite He.
Qed.

(** **** The milestone filter *)

(** X17: a pull request that passes the label filter is skipped for
    its milestone exactly when a milestone that is not empty was asked
    for and the milestone of the pull request is another one; the skip
    only prints its message. *)
Theorem milestone_filter run i commit_subject commit_id pr_data keys st :
  passes_label_filter (get_pr_labels pr_data) →
  let r := process run i commit_subject commit_id pr_data keys st in
  (∀ c, r.1.1 = XMilestone c
        ↔ c = commit_id ∧ ∃ wanted, milestone run = Some wanted ∧ wanted ≠ ""
                                    ∧ get_pr_milestone pr_data ≠ wanted)
  ∧ (∀ wanted, milestone run = Some wanted → wanted ≠ "" →
       get_pr_milestone pr_data ≠ wanted →
       r = (XMilestone commit_id, keys,
            emit (echo_info ("Looking for milestone " +:+ wanted +:+ ", skipping "
                             +:+ format_commit_id commit_id +:+ ".")) st)).
Proof.
  intros Hlab r. subst r. unfold process.
  destruct (label_flags_sorted (get_pr_labels pr_data)) as (d & n & -> & Hd & Hn).
  rewrite (passes_filters_flags _ d n) by done.
  assert (bool_decide (truthy (milestone run) ≠ None)
          && bool_decide (Some (get_pr_milestone pr_data) ≠ milestone run) = true
          ↔ ∃ wanted, milestone run = Some wanted ∧ wanted ≠ ""
                      ∧ get_pr_milestone pr_data ≠ wanted) as Hm.
  { rewrite andb_true_iff, !bool_decide_eq_true. unfold truthy.
    destruct (milestone run) as [m|]; [| naive_solver].
    case_bool_decide; naive_solver. }
  destruct (_ && _).
  - destruct (proj1 Hm eq_refl) as (wanted & Hw & Hne & Hdiff). split.
    + intros c. simpl. split; [intros [= <-]; eauto |]. by intros [-> _].
    + intros wanted' Hw' _ _. rewrite Hw in *. injection Hw' as <-. done.
  - split.
    + intros c. split; [| intros [_ Hex]; by apply Hm in Hex].
      intros Hx. exfalso. revert Hx. case_bool_decide; [done |].
      match goal with |- (prompt_loop ?r ?p ?f ?e ?k ?s).1.1 = _ → _ =>
        pose proof (prompt_loop_exit r p f e k s) as Hx end.
      intros E'. rewrite E' in Hx. unfold prompt_exit in Hx. naive_solver.
    + intros wanted Hw Hne Hdiff. exfalso.
      assert (false = true); [| done]. apply Hm. eauto.
Qed.

(** **** The prompt *)

Lemma prompt_loop_fresh run pr choice_error keys st st1 :
  display run pr choice_error st = (true, st1) →
  prompt_loop run pr true choice_error keys st = prompt_loop run pr false choice_error keys st1.
Proof. intros Hd. destruct keys; simpl; by rewrite Hd. Qed.

(** X18: a key that is a null byte once stripped is dropped: the
    prompt goes on as if it had not been typed, without displaying the
    pull request again. *)
Theorem null_byte_ignored run pr choice_error key keys st st1 :
  display run pr choice_error st = (true, st1) →
  strip key = NUL →
  prompt_loop run pr true choice_error (key :: keys) st
    = prompt_loop run pr true choice_error keys st.
Proof.
  intros Hd Hk. rewrite (prompt_loop_fresh _ _ _ keys _ _ Hd).
  cbn [prompt_loop]. rewrite Hd. cbn [negb]. by rewrite Hk, bool_decide_eq_true_2.
Qed.

(** X19: a key of the menu other than a null byte does what its entry
    says: "Skip" and "Quit" print two lines and create no card, the
    first going on to the next change and the second ending the run; any
    other entry is a team, and the card goes to that team alone. *)
Theorem menu_choice run pr choice_error key keys st st1 value :
  display run pr choice_error st = (true, st1) →
  strip key ≠ "" → strip key ≠ NUL →
  lookup_option (strip key) (options run) = Some value →
  let st2 := emit (echo_info value) st1 in
  prompt_loop run pr true choice_error (key :: keys) st =
    if bool_decide (value = "Skip") then
      (XSkipped (commit_id pr), keys,
       emit (echo_info ("Skipped " +:+ format_commit_id (commit_id pr))) st2)
    else if bool_decide (value = "Quit") then
      (XQuit (commit_id pr), keys,
       emit (echo_warning ("Exited at " +:+ format_commit_id (commit_id pr))) st2)
    else
      (XCard (commit_id pr) value, keys,
       create_trello_card [value] (pr_title pr) (pr_url pr) (pr_body pr) (dry_run run) st2).
Proof.
  intros Hd Hne Hnul Hl. cbn [prompt_loop]. rewrite Hd. cbn [negb].
  rewrite !bool_decide_eq_false_2 by done. by rewrite Hl.
Qed.

(** X20: a pull request whose body is [null], with no label that maps
    to a team, stops the run with an [AttributeError] when it comes to
    the prompt: no key is read and the menu is not shown. *)
Theorem null_body_raises run i commit_subject commit_id pr_data keys st :
  passes_label_filter (get_pr_labels pr_data) →
  passes_milestone_filter (milestone run) (get_pr_milestone pr_data) →
  (∀ label, label ∈ get_pr_labels pr_data → label_team_map !! label = None) →
  body pr_data = Some JNull →
  let r := process run i commit_subject commit_id pr_data keys st in
  r.1.1 = XRaise AttributeError (Some commit_id) ∧ r.1.2 = keys
  ∧ ∃ evs, out r.2 = out st ++ evs ∧ Forall (λ e, is_prompt e = false) evs.
Proof.
  intros Hlab Hmil Hteams Hbody r. subst r. unfold process.
  destruct (label_flags_sorted (get_pr_labels pr_data)) as (d & n & -> & Hd & Hn).
  rewrite (passes_filters_flags _ d n) by done.
  rewrite passes_milestone by done.
  assert (teams_of (sorted (get_pr_labels pr_data)) = []) as ->.
  { assert (∀ team, team ∉ teams_of (sorted (get_pr_labels pr_data))) as Hno.
    { intros team (label & Hin & Hl)%elem_of_teams_of.
      rewrite elem_of_sorted in Hin. by rewrite (Hteams _ Hin) in Hl. }
    destruct (teams_of _) as [|team ?]; [done |]. destruct (Hno team). by left. }
  rewrite bool_decide_eq_false_2 by by intros ?.
  rewrite Hbody.
  destruct keys as [|key keys]; cbn [prompt_loop]; unfold display;
    cbn [pr_body pr_milestone default];
    destruct (bool_decide (get_pr_milestone pr_data ≠ "")); cbn [negb fst snd];
    (split; [done |]; split; [done |]; simpl;
     eexists; rewrite <- !(assoc_L (++)); split; [reflexivity |]; by repeat constructor).
Qed.

(** X21: a pull request with a label that maps to a team never comes
    to the prompt, whether it is a duplicate, filtered out or given its
    cards: no key is read and the menu prompt is not shown. *)
Theorem team_label_never_prompts run i commit_subject commit_id pr_data keys st :
  (∃ label team, label ∈ get_pr_labels pr_data ∧ label_team_map !! label = Some team) →
  let r := handle run i commit_subject commit_id pr_data keys st in
  r.1.2 = keys
  ∧ ∃ evs, out r.2 = out st ++ evs ∧ Forall (λ e, is_prompt e = false) evs.
Proof.
  intros (label & team & Hin & Hteam) r. subst r. unfold handle.
  destruct (_ && _).
  { split; [done |]. eexists. split; [reflexivity |]. by repeat constructor. }
  unfold process.
  destruct (label_flags_sorted (get_pr_labels pr_data)) as (d & n & -> & _).
  destruct (d && n).
  { split; [done |]. eexists. split; [reflexivity |]. by repeat constructor. }
  destruct (_ && _).
  { split; [done |]. eexists. split; [reflexivity |]. by repeat constructor. }
  rewrite bool_decide_eq_true_2.
  - split; [done |].
    match goal with |- context [create_trello_card ?t ?a ?b ?c ?d ?s] =>
      destruct (create_trello_card_grows t a b c d s) as [_ (evs & Ho & Hev)] end.
    exists evs. split; [exact Ho |]. eapply Forall_impl; [exact Hev |]. by intros ? [_ ?].
  - intros Hnil. assert (team ∈ teams_of (sorted (get_pr_labels pr_data))) as Ht.
    { apply elem_of_teams_of. exists label. by rewrite elem_of_sorted. }
    rewrite Hnil in Ht. by apply elem_of_nil in Ht.
Qed.

(** **** Runs on a list of changes in two parts *)

(** X22: a run on a list of changes in two parts is the run on the
    first part followed, when none of its iterations stopped the loop,
    by the run on the second part from the keys and the state reached,
    with the count of the changes carried on. *)
Theorem review_app run i changes1 changes2 keys st :
  review run i (changes1 ++ changes2) keys st =
    let '(log1, keys1, st1) := review run i changes1 keys st in
    if List.forallb continues log1 then
      let '(log2, keys2, st2) := review run (i + length changes1) changes2 keys1 st1 in
      (log1 ++ log2, keys2, st2)
    else (log1, keys1, st1).
Proof.
  revert i keys st. induction changes1 as [|change changes1 IH]; intros i keys st.
  - simpl. rewrite Nat.add_0_r. by destruct (review run i changes2 keys st) as [[? ?] ?].
  - cbn [review app]. destruct (step run i change keys st) as [[x k1] st1].
    destruct (continues x) eqn:Hx.
    + rewrite IH. destruct (review run (S i) changes1 k1 st1) as [[log1 k2] st2].
      cbn [List.forallb]. rewrite Hx. cbn [andb length].
      replace (i + S (length changes1)) with (S i + length changes1) by lia.
      destruct (List.forallb continues log1); [| done].
      by destruct (review run _ changes2 k2 st2) as [[? ?] ?].
    + simpl. by rewrite Hx.
Qed.

End Facts.

Import Script.

Lemma review_stops_at_first_stop_witness :
  let run := mkRun "integrations-core" None true options_integrations_core "1" 2 in
  let r := review run 1 (diff_data two_fixes) ["q"]
             (start (mkAnswers [pr "10" []; pr "10" []] [] [])) in
  length r.1.1 ≤ length (diff_data two_fixes)
  ∧ (∀ j x, r.1.1 !! j = Some x → continues x = false → S j = length r.1.1)
  ∧ (length r.1.1 < length (diff_data two_fixes) →
     ∃ x, last r.1.1 = Some x ∧ continues x = false).
Proof.
  intros run r.
  apply (review_stops_at_first_stop (H := scripted) run 1 (diff_data two_fixes) ["q"]
           (start (mkAnswers [pr "10" []; pr "10" []] [] [])) r.1.1 r.1.2 r.2).
  subst r. by destruct (review _ _ _ _ _) as [[? ?] ?].
Defined.

Lemma duplicate_follows_processed_witness :
  let r := testable "integrations-core" two_fixes None true [] routed_twice in
  ∃ k x, k < 1 ∧ r.1.1 !! k = Some x ∧ processed x = Some "10".
Proof.
  intros r.
  apply (duplicate_follows_processed (H := scripted) "integrations-core" two_fixes None true []
           routed_twice r.1.1 r.1.2 r.2 1 "10").
  - subst r. by destruct (testable _ _ _ _ _ _) as [[? ?] ?].
  - by vm_compute.
Defined.

Lemma seen_iff_processed_witness :
  let r := testable "integrations-core" two_fixes None true [] routed_twice in
  "10" ∈ commit_ids r.2 ↔ times_processed "10" r.1.1 = 1.
Proof.
  intros r.
  apply (seen_iff_processed (H := scripted) "integrations-core" two_fixes None true []
           routed_twice r.1.1 r.1.2 r.2 "10").
  - subst r. by destruct (testable _ _ _ _ _ _) as [[? ?] ?].
  - discriminate.
Defined.

Lemma failed_lookup_by_number_witness :
  let run := mkRun "integrations-core" None true options_integrations_core "1" 1 in
  let st := start (mkAnswers [mkResponse 404 empty_pr] [] []) in
  let '(x, keys', st') := step run 1 ["a1"; "Fixes (#10)"] ["q"] st in
  processed x = None ∧ keys' = ["q"] ∧ commit_ids st' = commit_ids st
  ∧ world st' = mkAnswers [] [] []
  ∧ (continues x = true ↔ 404%N = 403%N ∨ 404%N = 404%N)
  ∧ (404%N = 401%N → x = XAbort access_denied).
Proof.
  intros run st.
  apply (failed_lookup_by_number (H := scripted) run 1 "a1" "Fixes (#10)" "10" ["q"] st
           (mkResponse 404 empty_pr) (mkAnswers [] [] [])).
  - reflexivity.
  - reflexivity.
  - intros (_ & _ & H404 & _). by apply H404.
Defined.

Lemma failed_lookup_by_hash_witness :
  let run := mkRun "integrations-core" None true options_integrations_core "1" 1 in
  let st := start (mkAnswers [] [mkResponse 404 (mkSearchData None)] []) in
  let '(x, keys', st') := step run 1 ["a1"; "Add the check"] ["q"] st in
  keys' = ["q"] ∧ commit_ids st' = commit_ids st ∧ x = XRaise HTTPError None.
Proof.
  intros run st.
  apply (failed_lookup_by_hash (H := scripted) run 1 "a1" "Add the check" ["q"] st
           (mkResponse 404 (mkSearchData None)) (mkAnswers [] [] []));
    (reflexivity || discriminate).
Defined.

Lemma milestone_filter_witness :
  let run := mkRun "integrations-core" (Some "7.17.0") true options_integrations_core "1" 1 in
  let r := process run 1 "Fix (#10)" "10" for_7_16 [] (start (mkAnswers [] [] [])) in
  (∀ c, r.1.1 = XMilestone c
        ↔ c = "10" ∧ ∃ wanted, Some "7.17.0" = Some wanted ∧ wanted ≠ ""
                               ∧ "7.16.0" ≠ wanted)
  ∧ (∀ wanted, Some "7.17.0" = Some wanted → wanted ≠ "" → "7.16.0" ≠ wanted →
       r = (XMilestone "10", [],
            emit (echo_info ("Looking for milestone " +:+ wanted +:+ ", skipping "
                             +:+ format_commit_id "10" +:+ "."))
              (start (mkAnswers [] [] [])))).
Proof.
  intros run.
  apply (milestone_filter (H := scripted) run 1 "Fix (#10)" "10" for_7_16 []
           (start (mkAnswers [] [] []))).
  left. intros label Hin. by apply elem_of_nil in Hin.
Defined.

Lemma null_byte_ignored_witness :
  let run := mkRun "integrations-core" None true options_integrations_core "1" 1 in
  let pr := mkShown "10" [] "" "url" "Title" "dev" (JStr "Body") "(1 of 1) " in
  let st := start (mkAnswers [] [] []) in
  prompt_loop run pr true "" [NUL; "s"] st = prompt_loop run pr true "" ["s"] st.
Proof.
  intros run pr st.
  apply (null_byte_ignored (H := scripted) run pr "" NUL ["s"] st (display run pr "" st).2);
    reflexivity.
Defined.

Lemma menu_choice_witness :
  let run := mkRun "integrations-core" None true options_integrations_core "1" 1 in
  let pr := mkShown "10" [] "" "url" "Title" "dev" (JStr "Body") "(1 of 1) " in
  let st := start (mkAnswers [] [] []) in
  let st2 := emit (echo_info "Skip") (display run pr "" st).2 in
  prompt_loop run pr true "" ["s"; "q"] st =
    (XSkipped "10", ["q"], emit (echo_info ("Skipped " +:+ format_commit_id "10")) st2).
Proof.
  intros run pr st.
  apply (menu_choice (H := scripted) run pr "" "s" ["q"] st (display run pr "" st).2 "Skip");
    (reflexivity || discriminate).
Defined.

Lemma null_body_raises_witness :
  let run := mkRun "integrations-core" None true options_integrations_core "1" 1 in
  let pr_data := mkPrData (Some "10") None (Some "Change") (Some "dev") (Some JNull) [] None in
  let st := start (mkAnswers [] [] []) in
  let r := process run 1 "Fix (#10)" "10" pr_data ["1"] st in
  r.1.1 = XRaise AttributeError (Some "10") ∧ r.1.2 = ["1"]
  ∧ ∃ evs, out r.2 = out st ++ evs ∧ Forall (λ e, is_prompt e = false) evs.
Proof.
  intros run pr_data st.
  apply (null_body_raises (H := scripted) run 1 "Fix (#10)" "10" pr_data ["1"] st).
  - left. intros label Hin. by apply elem_of_nil in Hin.
  - by left.
  - intros label Hin. by apply elem_of_nil in Hin.
  - reflexivity.
Defined.

Lemma team_label_never_prompts_witness :
  let run := mkRun "integrations-core" (Some "7.17.0") false options_integrations_core "1" 1 in
  let pr_data := json (pr "10" ["documentation"; "team/containers"]) in
  let st := start (mkAnswers [] [] []) in
  let r := handle run 1 "Fix (#10)" "10" pr_data ["1"] st in
  r.1.2 = ["1"]
  ∧ ∃ evs, out r.2 = out st ++ evs ∧ Forall (λ e, is_prompt e = false) evs.
Proof.
  intros run pr_data st.
  apply (team_label_never_prompts (H := scripted) run 1 "Fix (#10)" "10" pr_data ["1"] st).
  exists "team/containers", "Containers". split; [right; by left | by vm_compute].
Defined.

End ReviewFacts.

(** ** The change enumerator *)

Module DiffFacts.
Import PyStr Release Diff StrFacts ReleaseFacts.

(** [contains] is the substring test. *)
Lemma contains_spec sub s : contains sub s = true ↔ ∃ a b, s = a +:+ sub +:+ b.
Proof.
  split.
  - induction s as [|c s IH]; cbn [contains].
    + rewrite orb_false_r. intros [t ->]%startswith_spec. by exists "", t.
    + intros [[t ->]%startswith_spec | Hc]%orb_prop; [by exists "", t |].
      destruct (IH Hc) as (a & b & ->). by exists (String c a), b.
  - intros (a & b & ->). induction a as [|c a IH]; sapp.
    + destruct (sub +:+ b) eqn:E; cbn [contains]; apply orb_true_intro; left;
        apply startswith_spec; by exists b.
    + cbn [contains]. apply orb_true_intro. by right.
Qed.

Section Facts.

Context `{Shell}.

(** X23: the enumerator runs [git fetch --dry] first, then the diff
    from the tag, then the diff from the release branch, and nothing
    else: one to three commands; a diff is returned only after one of
    the two diff commands was run. *)
Theorem get_diff_commands root base_ref target_ref h :
  let r := get_diff root base_ref target_ref h in
  let by_tag := diff_command ("refs/tags/" +:+ base_ref) target_ref in
  let by_branch := diff_command ("origin/" +:+ base_ref) target_ref in
  (commands r.1.2 = [fetch_command] ∧ (∃ text, r.1.1 = inl text))
  ∨ commands r.1.2 = [fetch_command; by_tag]
  ∨ commands r.1.2 = [fetch_command; by_tag; by_branch].
Proof.
  intros r by_tag by_branch. subst r. unfold get_diff.
  destruct (run_command fetch_command h) as [r1 h1].
  case_bool_decide; [left; split; [reflexivity | by eexists] |].
  destruct (_ || _); [left; split; [reflexivity | by eexists] |].
  destruct (run_command _ h1) as [r2 h2].
  case_bool_decide; [| right; left; reflexivity].
  destruct (run_command _ h2) as [r3 h3].
  case_bool_decide; right; right; reflexivity.
Qed.

(** X24: when [git fetch --dry] succeeds but its error output mentions
    the base ref or the target ref, the enumerator stops with the
    "not sync" message after that one command: no diff is computed. *)
Theorem stale_clone_stops root base_ref target_ref h r1 h1 a b :
  run_command fetch_command h = (r1, h1) → code r1 = 0%Z →
  stderr r1 = a +:+ base_ref +:+ b ∨ stderr r1 = a +:+ target_ref +:+ b →
  let r := get_diff root base_ref target_ref h in
  r.1.1 = inl (not_in_sync root) ∧ commands r.1.2 = [fetch_command] ∧ r.2 = h1.
Proof.
  intros Hf Hc Herr r. subst r. unfold get_diff. rewrite Hf.
  rewrite (bool_decide_eq_false_2 (code r1 ≠ 0%Z)) by (rewrite Hc; by intros ?).
  assert (contains base_ref (stderr r1) || contains target_ref (stderr r1) = true) as ->; [| done].
  apply orb_true_iff. destruct Herr as [E | E]; [left | right];
    apply contains_spec; eauto.
Qed.

(** X25: with a fresh clone, the diff from the tag is returned when
    its command succeeds, and the release branch [origin/base_ref] is
    tried only when it fails; the output of the branch diff is then
    returned, or the run stops with the hint when it fails too. *)
Theorem branch_fallback root base_ref target_ref h r1 h1 r2 h2 r3 h3 :
  run_command fetch_command h = (r1, h1) → code r1 = 0%Z →
  contains base_ref (stderr r1) = false → contains target_ref (stderr r1) = false →
  run_command (diff_command ("refs/tags/" +:+ base_ref) target_ref) h1 = (r2, h2) →
  run_command (diff_command ("origin/" +:+ base_ref) target_ref) h2 = (r3, h3) →
  let r := get_diff root base_ref target_ref h in
  if bool_decide (code r2 = 0%Z) then
    r.1.1 = inr (stdout r2) ∧ length (commands r.1.2) = 2 ∧ r.2 = h2
  else
    r.1.1 = (if bool_decide (code r3 = 0%Z) then inr (stdout r3)
             else inl (no_diff base_ref target_ref))
    ∧ length (commands r.1.2) = 3 ∧ r.2 = h3.
Proof.
  intros Hf Hc Hb Ht H2 H3 r. subst r. unfold get_diff. rewrite Hf.
  rewrite (bool_decide_eq_false_2 (code r1 ≠ 0%Z)) by (rewrite Hc; by intros ?).
  rewrite Hb, Ht. cbn [orb]. rewrite H2.
  destruct (decide (code r2 = 0%Z)) as [E2 | E2].
  - rewrite (bool_decide_eq_true_2 (code r2 = 0%Z)) by done.
    by rewrite (bool_decide_eq_false_2 (code r2 ≠ 0%Z)) by (rewrite E2; by intros ?).
  - rewrite (bool_decide_eq_false_2 (code r2 = 0%Z)) by done.
    rewrite (bool_decide_eq_true_2 (code r2 ≠ 0%Z)) by done. rewrite H3.
    destruct (decide (code r3 = 0%Z)) as [E3 | E3].
    + rewrite (bool_decide_eq_true_2 (code r3 = 0%Z)) by done.
      by rewrite (bool_decide_eq_false_2 (code r3 ≠ 0%Z)) by (rewrite E3; by intros ?).
    + rewrite (bool_decide_eq_false_2 (code r3 = 0%Z)) by done.
      by rewrite (bool_decide_eq_true_2 (code r3 ≠ 0%Z)) by done.
Qed.

End Facts.

Lemma stale_clone_stops_witness :
  let h := [mkCommandResult 0 "" "   1a2b..3c4d  master -> origin/master"] in
  let r := get_diff (H := scripted_shell) "/repo" "7.16.1" "origin/master" h in
  r.1.1 = inl (not_in_sync "/repo") ∧ commands r.1.2 = [fetch_command] ∧ r.2 = [].
Proof.
  intros h.
  apply (stale_clone_stops (H := scripted_shell) "/repo" "7.16.1" "origin/master" h
           (mkCommandResult 0 "" "   1a2b..3c4d  master -> origin/master") []
           "   1a2b..3c4d  master -> " "").
  - reflexivity.
  - reflexivity.
  - right. reflexivity.
Defined.

Lemma branch_fallback_witness :
  let h := [mkCommandResult 0 "" ""; mkCommandResult 128 "" "unknown revision";
            mkCommandResult 0 "b2 Fixes #10" ""] in
  let r := get_diff (H := scripted_shell) "/repo" "7.17.x" "origin/master" h in
  r.1.1 = inr "b2 Fixes #10" ∧ length (commands r.1.2) = 3 ∧ r.2 = [].
Proof.
  intros h.
  apply (branch_fallback (H := scripted_shell) "/repo" "7.17.x" "origin/master" h
           (mkCommandResult 0 "" "")
           [mkCommandResult 128 "" "unknown revision"; mkCommandResult 0 "b2 Fixes #10" ""]
           (mkCommandResult 128 "" "unknown revision") [mkCommandResult 0 "b2 Fixes #10" ""]
           (mkCommandResult 0 "b2 Fixes #10" "") []);
    reflexivity.
Defined.

End DiffFacts.
